(** * tabs-motion: keyboard navigation, roving tabindex and accent layout

    A shallow embedding of [src/tabs-motion/index.js] (the [Tabs] component)
    and the properties of its rendering and event handling.

    Conventions of the embedding
    - a JavaScript string is a [string]; [undefined] in a place where the
      code expects a string (a lookup out of range) is [None];
    - DOM lengths and offsets ([clientWidth], [offsetLeft], ...) are integers,
      modelled in [Z];
    - the handlers run in a small state-and-exception monad over the part of
      the page they touch: the focused node and the log of [onSelect] calls. *)

From Stdlib Require Import ZArith Lia.
From stdpp Require Import base option list strings pretty.

Local Open Scope Z_scope.
Local Open Scope string_scope.
Local Open Scope list_scope.

(** ** Constants *)

Module ORIENTATION.
Definition vertical : string := "vertical".
Definition horizontal : string := "horizontal".
End ORIENTATION.

Module FILL.
Definition fixed : string := "fixed".
Definition intrinsic : string := "intrinsic".
End FILL.

Module KEYBOARD_ACTIVATION.
Definition automatic : string := "automatic".
Definition manual : string := "manual".
End KEYBOARD_ACTIVATION.

(** ** Utilities *)

(** A template literal [`${key}`] prints [undefined] as the word. *)
Definition template (key : option string) : string :=
  default "undefined" key.

Definition getTabId (key : option string) : string := "tab_" +:+ template key.
Definition getTabPanelId (key : option string) : string :=
  "tabpanel_" +:+ template key.

(** ** The values handed to the styling helper

    The variant mapping is a JavaScript object literal: an absent entry reads
    as [undefined]; the entries present in this file are strings, but a caller
    of [$helper] may pass any value. *)

Inductive value :=
| VUndefined
| VNull
| VBool (b : bool)
| VNum (z : Z)
| VStr (s : string).

Global Instance value_eq_dec : EqDecision value.
Proof. solve_decision. Defined.

(** ToBoolean, as used by [||]. *)
Definition truthy (x : value) : bool :=
  match x with
  | VUndefined | VNull => false
  | VBool b => b
  | VNum z => negb (Z.eqb z 0)
  | VStr s => negb (String.eqb s "")
  end.

Definition js_or (a b : value) : value := if truthy a then a else b.
Infix "|||" := js_or (at level 50, left associativity).

Record results := {
  hltr : value; hrtl : value; vltr : value; vrtl : value;
  h : value; v : value; ltr : value; rtl : value
}.

(** [helper], lines 172-189; [direction] is [theme.direction]. *)
Definition helper (orientation direction : string) (r : results) : value :=
  if bool_decide (orientation = ORIENTATION.horizontal)
     && negb (bool_decide (direction = "rtl"))
  then hltr r ||| h r ||| ltr r ||| VNull
  else if bool_decide (orientation = ORIENTATION.vertical)
          && negb (bool_decide (direction = "rtl"))
  then vltr r ||| v r ||| ltr r ||| VNull
  else if bool_decide (orientation = ORIENTATION.horizontal)
          && bool_decide (direction = "rtl")
  then hrtl r ||| h r ||| rtl r ||| VNull
  else if bool_decide (orientation = ORIENTATION.vertical)
          && bool_decide (direction = "rtl")
  then vrtl r ||| v r ||| rtl r ||| VNull
  else VNull.

(** The precedence order in the words of the specification: the
    orientation+direction entry, the orientation entry, the direction entry. *)
Definition orientation_direction_entry (orientation direction : string)
    (r : results) : value :=
  if bool_decide (orientation = ORIENTATION.horizontal)
  then (if bool_decide (direction = "rtl") then hrtl r else hltr r)
  else (if bool_decide (direction = "rtl") then vrtl r else vltr r).

Definition orientation_entry (orientation : string) (r : results) : value :=
  if bool_decide (orientation = ORIENTATION.horizontal) then h r else v r.

Definition direction_entry (direction : string) (r : results) : value :=
  if bool_decide (direction = "rtl") then rtl r else ltr r.

Definition precedence (orientation direction : string) (r : results)
    : list value :=
  [ orientation_direction_entry orientation direction r;
    orientation_entry orientation r;
    direction_entry direction r ].

Definition defined (x : value) : bool :=
  match x with
  | VUndefined | VNull => false
  | _ => true
  end.

(** First entry of [l] that satisfies [p], [null] when there is none. *)
Definition first_such (p : value -> bool) (l : list value) : value :=
  default VNull (List.find p l).

Definition no_variants : results :=
  {| hltr := VUndefined; hrtl := VUndefined; vltr := VUndefined;
     vrtl := VUndefined; h := VUndefined; v := VUndefined;
     ltr := VUndefined; rtl := VUndefined |}.

(** ** Children

    A child of [Tabs] is a [Tab] element or a falsy entry ([null], [false],
    [undefined]), which both render passes skip ([if (!child) return]).
    [key] is the element's explicit React key ([null] when none was given),
    [title] is [child.props.title] and [content] is [child.props.children]. *)

Record tab := {
  key : option string;
  title : string;
  content : string
}.

(** [props.children] is the child itself when the JSX has a single child
    expression and an array when it has several (or when the single expression
    is an array). *)
Inductive children_prop :=
| OnlyChild (child : option tab)
| ChildArray (cs : list (option tab)).

Definition Children_toArray (children : children_prop) : list (option tab) :=
  match children with
  | OnlyChild child => [child]
  | ChildArray cs => cs
  end.

(** [React.Children.map(children, fn)]: [fn] is called on every entry, the
    falsy ones too (they are passed as [null] and count in [index]), and the
    results that are [null] or [undefined] are left out of the returned
    array. *)
Definition Children_map {B : Type} (children : children_prop)
    (fn : option tab -> nat -> option B) : list B :=
  omap id (imap (fun index child => fn child index) (Children_toArray children)).

(** A JavaScript number, as far as array indices need it. *)
Inductive number :=
| Int (z : Z)
| NaN.

(** [children.length - 1]: an element object has no [length], and
    [undefined - 1] is [NaN]. *)
Definition children_length_minus_1 (children : children_prop) : number :=
  match children with
  | ChildArray cs => Int (Z.of_nat (length cs) - 1)
  | OnlyChild _ => NaN
  end.

(** [a[n]]: [undefined] when [n] is no index of [a]. *)
Definition at_index {A : Type} (a : list A) (n : number) : option A :=
  match n with
  | Int z => if bool_decide (0 <= z) then a !! Z.to_nat z else None
  | NaN => None
  end.

(** ** Props *)

Record props := {
  activeTabKey : string;
  disabled : bool;
  keyboardActivation : string;
  orientation : string;
  fill : string;
  children : children_prop
}.

(** The defaults of the destructured parameter, lines 113-118. *)
Definition default_props (children : children_prop) : props :=
  {| activeTabKey := "0";
     disabled := false;
     keyboardActivation := KEYBOARD_ACTIVATION.automatic;
     orientation := ORIENTATION.horizontal;
     fill := FILL.intrinsic;
     children := children |}.

(** ** Keys *)

(** [child.key || String(index)]: the empty string is falsy. *)
Definition key_or_index (child : tab) (index : nat) : string :=
  match key child with
  | Some k => if bool_decide (k = "") then pretty index else k
  | None => pretty index
  end.

(** The first pass, lines 201-203. *)
Definition tabKeys (children : children_prop) : list string :=
  Children_map children (fun child index =>
    match child with
    | Some c => Some (key_or_index c index)
    | None => None
    end).

(** ** The rendered tab list *)

Record tab_button := {
  button_index : nat;              (* the [index] its handlers close over *)
  button_key : option string;      (* [tabKeys[index]] *)
  button_id : string;
  button_role : string;
  aria_selected : bool;
  aria_controls : string;
  tabIndex : string;
  has_activeTabRef : bool;
  button_children : string
}.

(** The second pass, lines 208-273. *)
Definition render_tabs (p : props) : list tab_button :=
  Children_map (children p) (fun child index =>
    match child with
    | None => None
    | Some c =>
        let key := tabKeys (children p) !! index in
        let isActive := bool_decide (key = Some (activeTabKey p)) in
        Some {| button_index := index;
                button_key := key;
                button_id := getTabId key;
                button_role := "tab";
                aria_selected := isActive;
                aria_controls := getTabPanelId key;
                tabIndex := if isActive then "0" else "-1";
                has_activeTabRef := isActive;
                button_children := title c |}
    end).

(** ** The rendered panels *)

Record tab_panel := {
  panel_key : string;
  panel_id : string;
  panel_role : string;
  aria_expanded : bool;
  hidden : bool;
  panel_children : string
}.

(** The third pass, lines 283-298. *)
Definition render_panels (p : props) : list tab_panel :=
  Children_map (children p) (fun child index =>
    match child with
    | None => None
    | Some c =>
        let key := key_or_index c index in
        let isActive := bool_decide (key = activeTabKey p) in
        Some {| panel_key := key;
                panel_id := getTabPanelId (Some key);
                panel_role := "tabpanel";
                aria_expanded := isActive;
                hidden := negb isActive;
                panel_children := content c |}
    end).

(** ** The DOM of the tab list *)

Inductive node :=
| TabNode (index : nat)
| AccentNode.

Global Instance node_eq_dec : EqDecision node.
Proof. solve_decision. Defined.

(** Modelled from the spec: [Button] and the styled elements come from
    [../button] and [../styles], which are not among the sources at hand.  By
    the specification the button is "a generic clickable/focusable button
    primitive" and the accent "a decorative element": each [Button] is taken
    to render one focusable element, [TabNode index] for the child at
    [index], and [StyledTabList] holds these in order, followed by the one
    element of [StyledTabAccent]. *)
Definition childNodes (p : props) : list node :=
  (TabNode ∘ button_index <$> render_tabs p) ++ [AccentNode].

(** Siblings of the node at position [pos] of [nodes]. *)
Definition previousSibling (nodes : list node) (pos : nat) : option node :=
  match pos with
  | O => None
  | S pos' => nodes !! pos'
  end.

Definition nextSibling (nodes : list node) (pos : nat) : option node :=
  nodes !! S pos.

Definition lastElementChild (nodes : list node) : option node := last nodes.

(** ** Effects

    What a handler can change: which node of the tab list has focus
    ([document.activeElement]) and the calls made to [onSelect], oldest
    first, each with its [selectedTabKey]. *)

Record world := {
  activeElement : option node;
  onSelect_calls : list (option string)
}.

Inductive error := TypeError.

Inductive completion (A : Type) :=
| Normal (a : A) (w : world)
| Throw (e : error) (w : world).
Arguments Normal {A} a w.
Arguments Throw {A} e w.

Definition M (A : Type) : Type := world -> completion A.

Global Instance M_ret : MRet M := fun A a w => Normal a w.

Global Instance M_bind : MBind M := fun A B k m w =>
  match m w with
  | Normal a w' => k a w'
  | Throw e w' => Throw e w'
  end.

Definition throw {A : Type} (e : error) : M A := fun w => Throw e w.

Definition final_world {A : Type} (c : completion A) : world :=
  match c with
  | Normal _ w => w
  | Throw _ w => w
  end.

(** [x.focus()]: a [TypeError] on [undefined], a change of focus on a tab
    button, nothing on the accent (a [div] without [tabindex] is not
    focusable). *)
Definition focus (x : option node) : M unit :=
  match x with
  | None => throw TypeError
  | Some (TabNode index) => fun w =>
      Normal tt {| activeElement := Some (TabNode index);
                   onSelect_calls := onSelect_calls w |}
  | Some AccentNode => mret tt
  end.

(** [onSelect({selectedTabKey})]. *)
Definition onSelect (selectedTabKey : option string) : M unit :=
  fun w =>
    Normal tt {| activeElement := activeElement w;
                 onSelect_calls := onSelect_calls w ++ [selectedTabKey] |}.

(** ** Handlers of the tab rendered for [children[index]] *)

(** [target] is the position of [event.target] among the child nodes of its
    parent. *)
Record event := {
  keyCode : Z;
  target : nat
}.

(** The event is one that the button of [index] receives. *)
Definition delivered_to (p : props) (index : nat) (ev : event) : Prop :=
  childNodes p !! target ev = Some (TabNode index).

Definition onClick (p : props) (index : nat) : M unit :=
  onSelect (tabKeys (children p) !! index).

(** Lines 218-263. *)
Definition onKeyDown (p : props) (index : nat) (ev : event) : M unit :=
  let nodes := childNodes p in
  if bool_decide (keyCode ev = 37) || bool_decide (keyCode ev = 39) then
    let nextActiveIndex :=
      if bool_decide (keyCode ev = 37) then
        match previousSibling nodes (target ev) with
        | Some _ => Int (Z.of_nat index - 1)
        | None => children_length_minus_1 (children p)
        end
      else
        match nextSibling nodes (target ev) with
        | Some next =>
            if bool_decide (Some next ≠ lastElementChild nodes)
            then Int (Z.of_nat index + 1)
            else Int 0
        | None => Int 0
        end in
    focus (at_index nodes nextActiveIndex) ;;
    if bool_decide (keyboardActivation p = KEYBOARD_ACTIVATION.automatic)
    then onSelect (at_index (tabKeys (children p)) nextActiveIndex)
    else mret tt
  else mret tt.

(** ** The accent layout *)

Record parent_element := { scrollWidth : Z }.

Record element := {
  clientWidth : Z;
  clientHeight : Z;
  offsetLeft : Z;
  offsetTop : Z;
  parentElement : option parent_element
}.

(** The state [{length, distance}]; [length_] is the field [length]. *)
Record accent_layout := {
  length_ : Z;
  distance : Z
}.

(** The argument of [React.useState], lines 125-128. *)
Definition initial_accentLayout : accent_layout :=
  {| length_ := 0; distance := 0 |}.

Inductive effect_result :=
| Done (accentLayout : accent_layout)
| Failed (e : error) (accentLayout : accent_layout).

(** The effect of lines 129-147, run with [activeTabRef.current] and the
    state that [setAccentLayout] may replace.  Reading [scrollWidth] off a
    missing parent throws before [setAccentLayout] is reached. *)
Definition accent_effect (orientation direction : string)
    (current : option element) (accentLayout : accent_layout)
    : effect_result :=
  match current with
  | None => Done accentLayout
  | Some el =>
      let length :=
        if bool_decide (orientation = ORIENTATION.horizontal)
        then clientWidth el
        else clientHeight el in
      let distance :=
        if bool_decide (orientation = ORIENTATION.horizontal)
        then
          if negb (bool_decide (direction = "rtl"))
          then Some (offsetLeft el)
          else
            parent ← parentElement el;
            Some (-1 * (scrollWidth parent - offsetLeft el - clientWidth el))
        else Some (offsetTop el) in
      match distance with
      | Some d => Done {| length_ := length; distance := d |}
      | None => Failed TypeError accentLayout
      end
  end.

(** ** Example inputs *)

Definition tab_A : tab := {| key := None; title := "A"; content := "a" |}.
Definition tab_B : tab := {| key := None; title := "B"; content := "b" |}.
Definition tab_C : tab := {| key := None; title := "C"; content := "c" |}.

(** Focus on the tab of [index], no call made yet. *)
Definition focused_on (index : nat) : world :=
  {| activeElement := Some (TabNode index); onSelect_calls := [] |}.

Definition three_tabs : props :=
  default_props (ChildArray [Some tab_A; Some tab_B; Some tab_C]).

Definition manual_three_tabs : props :=
  {| activeTabKey := "0";
     disabled := false;
     keyboardActivation := KEYBOARD_ACTIVATION.manual;
     orientation := ORIENTATION.horizontal;
     fill := FILL.intrinsic;
     children := ChildArray [Some tab_A; Some tab_B; Some tab_C] |}.

Definition one_tab : props := default_props (ChildArray [Some tab_A]).

Definition manual_one_tab : props :=
  {| activeTabKey := "0";
     disabled := false;
     keyboardActivation := KEYBOARD_ACTIVATION.manual;
     orientation := ORIENTATION.horizontal;
     fill := FILL.intrinsic;
     children := ChildArray [Some tab_A] |}.

(** Two tabs laid out vertically. *)
Definition vertical_two_tabs : props :=
  {| activeTabKey := "0";
     disabled := false;
     keyboardActivation := KEYBOARD_ACTIVATION.automatic;
     orientation := ORIENTATION.vertical;
     fill := FILL.intrinsic;
     children := ChildArray [Some tab_A; Some tab_B] |}.

(** A conditional first child that is not shown:
    [{false && <Tab/>} <Tab title="A"/>]. *)
Definition falsy_then_tab : props :=
  default_props (ChildArray [None; Some tab_A]).

(** Tabs keyed "0", "1", "2" with the second one active. *)
Definition second_active : props :=
  {| activeTabKey := "1";
     disabled := false;
     keyboardActivation := KEYBOARD_ACTIVATION.automatic;
     orientation := ORIENTATION.horizontal;
     fill := FILL.intrinsic;
     children := ChildArray [Some tab_A; Some tab_B; Some tab_C] |}.

(** An [activeTabKey] that is the key of no tab. *)
Definition none_active : props :=
  {| activeTabKey := "7";
     disabled := false;
     keyboardActivation := KEYBOARD_ACTIVATION.automatic;
     orientation := ORIENTATION.horizontal;
     fill := FILL.intrinsic;
     children := ChildArray [Some tab_A; Some tab_B; Some tab_C] |}.

(** A falsy entry between tabs. *)
Definition falsy_between_tabs : props :=
  default_props (ChildArray [Some tab_A; None; Some tab_B; Some tab_C]).

(** A tab 80 wide, 40 from the left edge of a list 300 wide. *)
Definition measured_tab : element :=
  {| clientWidth := 80; clientHeight := 48; offsetLeft := 40;
     offsetTop := 0; parentElement := Some {| scrollWidth := 300 |} |}.

(** The neighbour of [index] among [n] tabs in the direction of the arrow key
    [code], wrapping at both ends (the "adjacent tab" of the specification). *)
Definition neighbour (n index : nat) (code : Z) : nat :=
  if bool_decide (code = 37)
  then (match index with O => n - 1 | S i => i end)%nat
  else (if bool_decide (S index = n) then 0 else S index)%nat.

(** ** Styles

    An object literal is the list of its properties in the order they are
    written; reading a property that is absent gives [undefined], and of two
    entries with one name the later counts, as for a spread. *)

Definition get {A : Type} (name : string) (object : list (string * A))
    : option A :=
  snd <$> List.find (fun entry => String.eqb (fst entry) name)
                    (reverse object).

Definition prop (name : string) (object : list (string * value)) : value :=
  default VUndefined (get name object).

(** The argument that a styled component hands to [$helper]: an object
    literal naming some of the eight variants. *)
Definition results_of (object : list (string * value)) : results :=
  {| hltr := prop "hltr" object; hrtl := prop "hrtl" object;
     vltr := prop "vltr" object; vrtl := prop "vrtl" object;
     h := prop "h" object; v := prop "v" object;
     ltr := prop "ltr" object; rtl := prop "rtl" object |}.

(** A style property holds a value or, for a selector, a nested object. *)
Inductive css :=
| Plain (x : value)
| Nested (rules : list (string * value)).

Definition declared (name : string) (style : list (string * css)) : css :=
  default (Plain VUndefined) (get name style).

(** The part of the theme that the file reads: [theme.direction],
    [theme.colors.borderOpaque], [theme.colors.primary],
    [theme.animation.timing400], [theme.animation.easeInOutQuinticCurve]. *)
Record theme := {
  direction : string;
  colors_borderOpaque : string;
  colors_primary : string;
  animation_timing400 : string;
  animation_easeInOutQuinticCurve : string
}.

(** The props [$theme], [$fill], [$helper], [$length] and [$distance] are
    written [_theme], [_fill], [_helper], [_length] and [_distance]. *)

(** [StyledRoot], lines 40-45. *)
Definition StyledRoot (_helper : results -> value) : list (string * css) :=
  [ ("display", Plain (VStr "flex"));
    ("flexDirection",
     Plain (_helper (results_of [("h", VStr "column"); ("v", VStr "row")]))) ].

(** [StyledTabList], lines 47-84. *)
Definition StyledTabList (_theme : theme) (_fill : string)
    (_helper : results -> value) : list (string * css) :=
  [ ("position", Plain (VStr "relative"));
    ("display", Plain (VStr "flex"));
    ("flexWrap", Plain (VStr "nowrap"));
    ("flexDirection",
     Plain (_helper (results_of [("h", VStr "row"); ("v", VStr "column")])));
    ("boxShadow",
     Plain (_helper (results_of
       [ ("h", VStr ("inset 0 -5px " +:+ colors_borderOpaque _theme));
         ("vltr", VStr ("inset -5px 0 " +:+ colors_borderOpaque _theme));
         ("vrtl", VStr ("inset 5px 0 " +:+ colors_borderOpaque _theme)) ])));
    ("paddingLeft", Plain (_helper (results_of [("vrtl", VStr "5px")])));
    ("paddingRight", Plain (_helper (results_of [("vltr", VStr "5px")])));
    ("paddingBottom", Plain (_helper (results_of [("h", VStr "5px")]))) ]
  ++ (if bool_decide (_fill = FILL.intrinsic)
      then [ ("overflowX",
              Plain (_helper (results_of [("h", VStr "scroll")])));
             ("overflowY",
              Plain (_helper (results_of [("v", VStr "scroll")])));
             ("::-webkit-scrollbar", Nested [("display", VStr "none")]);
             ("-ms-overflow-style", Plain (VStr "none"));
             ("scrollbarWidth", Plain (VStr "none")) ]
      else []).

(** [StyledTabAccent], lines 86-106; [$length] and [$distance] default to 0
    when they are not passed, and [$orientation] is not read. *)
Definition StyledTabAccent (_theme : theme) (_helper : results -> value)
    (_length _distance : option Z) : list (string * css) :=
  let _length := default 0 _length in
  let _distance := default 0 _distance in
  [ ("position", Plain (VStr "absolute"));
    ("bottom", Plain (_helper (results_of [("h", VStr "0")])));
    ("right",
     Plain (_helper (results_of [("hrtl", VStr "0"); ("vltr", VStr "0")])));
    ("left",
     Plain (_helper (results_of [("hltr", VStr "0"); ("vrtl", VStr "0")])));
    ("height",
     Plain (_helper (results_of [ ("h", VStr "5px");
                                  ("v", VStr (pretty _length +:+ "px")) ])));
    ("width",
     Plain (_helper (results_of [ ("v", VStr "5px");
                                  ("h", VStr (pretty _length +:+ "px")) ])));
    ("transform",
     Plain (_helper (results_of
       [ ("h", VStr ("translateX(" +:+ pretty _distance +:+ "px)"));
         ("v", VStr ("translateY(" +:+ pretty _distance +:+ "px)")) ])));
    ("backgroundColor", Plain (VStr (colors_primary _theme)));
    ("transitionProperty", Plain (VStr "all"));
    ("transitionDuration", Plain (VStr (animation_timing400 _theme)));
    ("transitionTimingFunction",
     Plain (VStr (animation_easeInOutQuinticCurve _theme))) ].

(** The styles of the three elements as [Tabs] renders them, lines 192-196,
    206-207 and 274-280: each gets [shared$Props], whose [$helper] is
    [helper] closed over [orientation] and [theme.direction]. *)
Definition root_style (p : props) (t : theme) : list (string * css) :=
  StyledRoot (helper (orientation p) (direction t)).

Definition tab_list_style (p : props) (t : theme) : list (string * css) :=
  StyledTabList t (fill p) (helper (orientation p) (direction t)).

Definition accent_style (p : props) (t : theme) (accentLayout : accent_layout)
    : list (string * css) :=
  StyledTabAccent t (helper (orientation p) (direction t))
    (Some (length_ accentLayout)) (Some (distance accentLayout)).

(** ** The ref and the effects

    [mounted index] is the element of the button rendered for
    [children[index]]. *)

(** [activeTabRef.current] once a render is committed: every active button
    is given the ref, the last one attached keeps it, and it is unset when no
    button is active. *)
Definition activeTabRef_current (p : props) (mounted : nat -> element)
    : option element :=
  mounted ∘ button_index
    <$> last (filter (fun b => has_activeTabRef b = true) (render_tabs p)).

Record scroll_options := {
  behavior : value;
  block : string;
  inline : string
}.

(** The effect of lines 152-159: the calls it makes to [scrollIntoView]. *)
Definition scroll_on_mount (current : option element)
    : list (element * scroll_options) :=
  match current with
  | Some el =>
      [(el, {| behavior := VUndefined; block := "start";
               inline := "center" |})]
  | None => []
  end.

(** The effect of lines 161-169. *)
Definition scroll_on_key_change (current : option element)
    : list (element * scroll_options) :=
  match current with
  | Some el =>
      [(el, {| behavior := VStr "smooth"; block := "nearest";
               inline := "nearest" |})]
  | None => []
  end.

(** What the effects act on: the [accentLayout] state and the calls made to
    [scrollIntoView], oldest first. *)
Record instance := {
  accentLayout : accent_layout;
  scrollIntoView_calls : list (element * scroll_options)
}.

Definition initial_instance : instance :=
  {| accentLayout := initial_accentLayout; scrollIntoView_calls := [] |}.

Inductive commit_result :=
| Committed (st : instance)
| Crashed (e : error) (st : instance).

(** The effects that depend on [activeTabKey], in the order they are
    declared: the accent layout, then the smooth scroll. *)
Definition key_change_effects (p : props) (t : theme)
    (mounted : nat -> element) (between : list (element * scroll_options))
    (st : instance) : commit_result :=
  let current := activeTabRef_current p mounted in
  match accent_effect (orientation p) (direction t) current
          (accentLayout st) with
  | Failed e _ => Crashed e st
  | Done layout =>
      Committed
        {| accentLayout := layout;
           scrollIntoView_calls :=
             scrollIntoView_calls st ++ between
             ++ scroll_on_key_change current |}
  end.

(** After the first render all three effects run; the one with no
    dependencies sits between the other two. *)
Definition effects_after_mount (p : props) (t : theme)
    (mounted : nat -> element) : commit_result :=
  key_change_effects p t mounted
    (scroll_on_mount (activeTabRef_current p mounted)) initial_instance.

(** After a later render the effects with dependencies [[activeTabKey]] run
    when the key differs from that of the previous render [prev], and no
    effect runs otherwise. *)
Definition effects_after_update (prev p : props) (t : theme)
    (mounted : nat -> element) (st : instance) : commit_result :=
  if bool_decide (activeTabKey prev = activeTabKey p)
  then Committed st
  else key_change_effects p t mounted [] st.

(** ** Key presses

    The page delivers a key press to the element that has focus: the handler
    of the focused tab runs with that tab as [event.target]. *)
Definition keydown (p : props) (code : Z) : M unit := fun w =>
  match activeElement w with
  | Some (TabNode index) =>
      match list_find (fun x => x = TabNode index) (childNodes p) with
      | Some (pos, _) =>
          onKeyDown p index {| keyCode := code; target := pos |} w
      | None => Normal tt w
      end
  | _ => Normal tt w
  end.

(** [n] presses of one key in a row. *)
Fixpoint keydowns (p : props) (code : Z) (n : nat) : M unit :=
  match n with
  | O => mret tt
  | S n' => keydown p code ;; keydowns p code n'
  end.

(** Three tabs that share the width of the list. *)
Definition fixed_fill : props :=
  {| activeTabKey := "0";
     disabled := false;
     keyboardActivation := KEYBOARD_ACTIVATION.automatic;
     orientation := ORIENTATION.horizontal;
     fill := FILL.fixed;
     children := ChildArray [Some tab_A; Some tab_B; Some tab_C] |}.

(** The three tabs turned vertical, the first one still active. *)
Definition vertical_first_active : props :=
  {| activeTabKey := "0";
     disabled := false;
     keyboardActivation := KEYBOARD_ACTIVATION.automatic;
     orientation := ORIENTATION.vertical;
     fill := FILL.intrinsic;
     children := ChildArray [Some tab_A; Some tab_B; Some tab_C] |}.

(** The props of the next render when the parent has made [key] the
    active key, as it is expected to do on [onSelect]. *)
Definition with_activeTabKey (p : props) (key : string) : props :=
  {| activeTabKey := key;
     disabled := disabled p;
     keyboardActivation := keyboardActivation p;
     orientation := orientation p;
     fill := fill p;
     children := children p |}.

Definition with_disabled (p : props) (flag : bool) : props :=
  {| activeTabKey := activeTabKey p;
     disabled := flag;
     keyboardActivation := keyboardActivation p;
     orientation := orientation p;
     fill := fill p;
     children := children p |}.

(** Tab elements with measures told apart by their position. *)
Definition mounted_at (index : nat) : element :=
  {| clientWidth := 80; clientHeight := 48;
     offsetLeft := 80 * Z.of_nat index; offsetTop := 0;
     parentElement := Some {| scrollWidth := 300 |} |}.

Definition light_theme : theme :=
  {| direction := "ltr"; colors_borderOpaque := "#E2E2E2";
     colors_primary := "#000000"; animation_timing400 := "400ms";
     animation_easeInOutQuinticCurve := "cubic-bezier(0.86, 0, 0.07, 1)" |}.

(** * Properties *)

(** ** [React.Children.map] *)

Section Children_map.
Context {B : Type}.

Lemma omap_imap_all_tabs (fn : option tab -> nat -> option B)
    (g : nat -> tab -> B) (tabs : list tab) :
  (forall i c, fn (Some c) i = Some (g i c)) ->
  omap id (imap (fun index child => fn child index) (Some <$> tabs))
  = imap g tabs.
Proof.
  revert fn g. induction tabs as [|c tabs IH]; intros fn g Hfn; [done|].
  cbn. rewrite Hfn. cbn. f_equal.
  apply (IH (fun child i => fn child (S i)) (g ∘ S)).
  intros i c'. apply Hfn.
Qed.

Lemma Children_map_all_tabs (fn : option tab -> nat -> option B)
    (g : nat -> tab -> B) (tabs : list tab) :
  (forall i c, fn (Some c) i = Some (g i c)) ->
  Children_map (ChildArray (Some <$> tabs)) fn = imap g tabs.
Proof. apply omap_imap_all_tabs. Qed.

Lemma elem_of_Children_map (children : children_prop)
    (fn : option tab -> nat -> option B) (b : B) :
  b ∈ Children_map children fn <->
  exists index child,
    Children_toArray children !! index = Some child /\
    fn child index = Some b.
Proof.
  unfold Children_map. rewrite list_elem_of_omap. split.
  - intros (x & Hx & Hb). apply elem_of_lookup_imap in Hx.
    destruct Hx as (i & child & -> & Hi). exists i, child. by split.
  - intros (i & child & Hi & Hb). exists (fn child i). split; [|done].
    apply elem_of_lookup_imap. by exists i, child.
Qed.

Lemma fmap_omap_imap {C : Type} (f : B -> C)
    (fn : option tab -> nat -> option B) (cs : list (option tab)) :
  f <$> omap id (imap (fun index child => fn child index) cs)
  = omap id (imap (fun index child => f <$> fn child index) cs).
Proof.
  revert fn. induction cs as [|c cs IH]; intros fn; [done|].
  cbn. specialize (IH (fun child i => fn child (S i))).
  destruct (fn c 0%nat); cbn; [f_equal|]; apply IH.
Qed.

Lemma fmap_Children_map {C : Type} (f : B -> C) (children : children_prop)
    (fn : option tab -> nat -> option B) :
  f <$> Children_map children fn
  = Children_map children (fun child index => f <$> fn child index).
Proof. apply fmap_omap_imap. Qed.
End Children_map.

Lemma Children_map_ext {B : Type} (children : children_prop)
    (fn fn' : option tab -> nat -> option B) :
  (forall child index, fn child index = fn' child index) ->
  Children_map children fn = Children_map children fn'.
Proof.
  intros Hext. unfold Children_map. f_equal. apply imap_ext.
  intros i child _. apply Hext.
Qed.

(** The number of rendered tabs (and panels) is the number of children that
    are not falsy. *)
Lemma length_Children_map {B : Type} (children : children_prop)
    (fn : option tab -> nat -> option B) :
  (forall c i, is_Some (fn (Some c) i)) ->
  (forall i, fn None i = None) ->
  length (Children_map children fn)
  = length (omap id (Children_toArray children)).
Proof.
  unfold Children_map. generalize (Children_toArray children) as cs.
  intros cs. revert fn. induction cs as [|c cs IH]; intros fn HS HN; [done|].
  cbn. specialize (IH (fun child i => fn child (S i))).
  destruct c as [c|]; cbn.
  - destruct (HS c 0%nat) as [b ->]. cbn. f_equal. apply IH; auto.
  - rewrite HN. apply IH; auto.
Qed.

(** ** The accent is the last element of the tab list *)

Lemma lastElementChild_childNodes (p : props) :
  lastElementChild (childNodes p) = Some AccentNode.
Proof. apply last_snoc. Qed.

(** ** Rendering a list of tabs without falsy entries *)

Section all_tabs.
Variable p : props.
Variable tabs : list tab.
Hypothesis children_tabs : children p = ChildArray (Some <$> tabs).

Lemma tabKeys_all_tabs :
  tabKeys (children p) = imap (fun i c => key_or_index c i) tabs.
Proof.
  rewrite children_tabs. unfold tabKeys.
  by apply Children_map_all_tabs.
Qed.

Lemma tabKeys_lookup (i : nat) (c : tab) :
  tabs !! i = Some c ->
  tabKeys (children p) !! i = Some (key_or_index c i).
Proof.
  intros Hi. rewrite tabKeys_all_tabs, list_lookup_imap, Hi. done.
Qed.

Lemma render_tabs_lookup (i : nat) (c : tab) :
  tabs !! i = Some c ->
  exists b,
    render_tabs p !! i = Some b /\
    button_index b = i /\
    button_key b = Some (key_or_index c i) /\
    button_id b = getTabId (Some (key_or_index c i)) /\
    aria_controls b = getTabPanelId (Some (key_or_index c i)) /\
    aria_selected b = bool_decide (key_or_index c i = activeTabKey p).
Proof.
  intros Hi. pose proof (tabKeys_lookup i c Hi) as Hkey.
  unfold render_tabs. rewrite children_tabs in *.
  erewrite Children_map_all_tabs; [|intros; reflexivity].
  rewrite list_lookup_imap, Hi.
  eexists. split; [reflexivity|].
  cbn [button_index button_key button_id aria_controls aria_selected].
  rewrite Hkey.
  repeat split. apply bool_decide_ext. split; congruence.
Qed.

Lemma button_indices_all_tabs :
  button_index <$> render_tabs p = seq 0 (length tabs).
Proof.
  unfold render_tabs. rewrite children_tabs.
  erewrite Children_map_all_tabs; [|intros; reflexivity].
  rewrite fmap_imap. apply list_eq. intros i.
  rewrite list_lookup_imap.
  destruct (tabs !! i) as [c|] eqn:Hi; cbn.
  - symmetry. apply lookup_seq. split; [done|].
    by apply lookup_lt_Some in Hi.
  - symmetry. apply lookup_ge_None. rewrite length_seq.
    by apply lookup_ge_None in Hi.
Qed.

Lemma childNodes_all_tabs :
  childNodes p = (TabNode <$> seq 0 (length tabs)) ++ [AccentNode].
Proof.
  unfold childNodes. by rewrite list_fmap_compose, button_indices_all_tabs.
Qed.

Lemma childNodes_lookup_tab (i : nat) :
  (i < length tabs)%nat -> childNodes p !! i = Some (TabNode i).
Proof.
  intros Hi. rewrite childNodes_all_tabs, lookup_app_l.
  - rewrite list_lookup_fmap, lookup_seq_lt by done. done.
  - by rewrite length_fmap, length_seq.
Qed.

Lemma childNodes_lookup_accent :
  childNodes p !! length tabs = Some AccentNode.
Proof.
  rewrite childNodes_all_tabs, lookup_app_r;
    rewrite length_fmap, length_seq; [|done].
  by rewrite Nat.sub_diag.
Qed.

(** What an arrow key does on the tab of [index]: focus goes to the
    neighbour, and with automatic activation [onSelect] gets one more call,
    with the neighbour's key. *)
Lemma onKeyDown_all_tabs (index : nat) (code : Z) (w : world) :
  (index < length tabs)%nat ->
  code = 37 \/ code = 39 ->
  onKeyDown p index {| keyCode := code; target := index |} w
  = Normal tt
      {| activeElement :=
           Some (TabNode (neighbour (length tabs) index code));
         onSelect_calls :=
           onSelect_calls w ++
           (if bool_decide
                 (keyboardActivation p = KEYBOARD_ACTIVATION.automatic)
            then [tabKeys (children p)
                    !! neighbour (length tabs) index code]
            else []) |}.
Proof.
  intros Hindex Hcode.
  assert (Hnext : at_index (childNodes p)
            (if bool_decide (code = 37) then
               match previousSibling (childNodes p) index with
               | Some _ => Int (Z.of_nat index - 1)
               | None => children_length_minus_1 (children p)
               end
             else
               match nextSibling (childNodes p) index with
               | Some next =>
                   if bool_decide
                        (Some next ≠ lastElementChild (childNodes p))
                   then Int (Z.of_nat index + 1) else Int 0
               | None => Int 0
               end)
          = Some (TabNode (neighbour (length tabs) index code))
          /\ forall keys : list string,
              at_index keys
                (if bool_decide (code = 37) then
                   match previousSibling (childNodes p) index with
                   | Some _ => Int (Z.of_nat index - 1)
                   | None => children_length_minus_1 (children p)
                   end
                 else
                   match nextSibling (childNodes p) index with
                   | Some next =>
                       if bool_decide
                            (Some next ≠ lastElementChild (childNodes p))
                       then Int (Z.of_nat index + 1) else Int 0
                   | None => Int 0
                   end)
              = keys !! neighbour (length tabs) index code).
  { unfold neighbour. rewrite lastElementChild_childNodes.
    destruct Hcode as [-> | ->]; cbn [bool_decide]; simpl bool_decide.
    - (* previous *)
      destruct index as [|i]; cbn [previousSibling].
      + rewrite children_tabs. cbn [children_length_minus_1].
        rewrite length_fmap. unfold at_index.
        rewrite bool_decide_true by lia.
        replace (Z.to_nat (Z.of_nat (length tabs) - 1))
          with (length tabs - 1)%nat by lia.
        split; [|done]. apply childNodes_lookup_tab. lia.
      + rewrite childNodes_lookup_tab by lia. unfold at_index.
        rewrite bool_decide_true by lia.
        replace (Z.to_nat (Z.of_nat (S i) - 1)) with i by lia.
        split; [|done]. apply childNodes_lookup_tab. lia.
    - (* next *)
      unfold nextSibling.
      destruct (decide (S index = length tabs)) as [Hlast|Hlast].
      + rewrite Hlast, childNodes_lookup_accent.
        rewrite bool_decide_false by (intros Hne; by apply Hne).
        rewrite bool_decide_true by done. unfold at_index. cbn.
        split; [|done]. apply childNodes_lookup_tab. lia.
      + rewrite childNodes_lookup_tab by lia.
        rewrite bool_decide_true by done.
        rewrite bool_decide_false by done. unfold at_index.
        rewrite bool_decide_true by lia.
        replace (Z.to_nat (Z.of_nat index + 1)) with (S index) by lia.
        split; [|done]. apply childNodes_lookup_tab. lia. }
  destruct Hnext as [Hnode Hkey].
  unfold onKeyDown. cbn [keyCode target].
  rewrite (orb_true_intro (bool_decide (code = 37)) (bool_decide (code = 39)))
    by (destruct Hcode as [-> | ->]; auto).
  unfold mbind, M_bind. rewrite Hnode. cbn [focus].
  rewrite Hkey.
  destruct (bool_decide
              (keyboardActivation p = KEYBOARD_ACTIVATION.automatic)); cbn.
  - done.
  - unfold mret, M_ret. by rewrite app_nil_r.
Qed.
End all_tabs.

Lemma neighbour_lt (n index : nat) (code : Z) :
  (index < n)%nat -> (neighbour n index code < n)%nat.
Proof.
  intros Hn. unfold neighbour.
  repeat case_bool_decide; destruct index; lia.
Qed.

Lemma neighbour_ne (n index : nat) (code : Z) :
  (2 <= n)%nat -> (index < n)%nat -> neighbour n index code <> index.
Proof.
  intros Hn Hi. unfold neighbour.
  repeat case_bool_decide; destruct index; lia.
Qed.

(** ** Keys other than the two arrows *)

Lemma onKeyDown_other_key (p : props) (index : nat) (ev : event) (w : world) :
  keyCode ev <> 37 -> keyCode ev <> 39 ->
  onKeyDown p index ev w = Normal tt w.
Proof.
  intros H37 H39. unfold onKeyDown.
  by rewrite !bool_decide_false by done.
Qed.

(** The handler never reads [orientation]. *)
Lemma onKeyDown_orientation (p : props) (o : string) (index : nat)
    (ev : event) (w : world) :
  onKeyDown
    {| activeTabKey := activeTabKey p; disabled := disabled p;
       keyboardActivation := keyboardActivation p; orientation := o;
       fill := fill p; children := children p |} index ev w
  = onKeyDown p index ev w.
Proof. reflexivity. Qed.

(** ** Arrow keys *)

(** C3: for every list of N >= 2 tabs, the "next" arrow key (39) pressed on
    the last tab moves focus to the first tab, and the "previous" arrow key
    (37) pressed on the first tab moves focus to the last tab. *)
Theorem arrow_keys_wrap (p : props) (tabs : list tab) (w : world) :
  children p = ChildArray (Some <$> tabs) ->
  (2 <= length tabs)%nat ->
  (delivered_to p (length tabs - 1)
     {| keyCode := 39; target := length tabs - 1 |} /\
   exists w',
     onKeyDown p (length tabs - 1)
       {| keyCode := 39; target := length tabs - 1 |} w = Normal tt w' /\
     activeElement w' = Some (TabNode 0)) /\
  (delivered_to p 0 {| keyCode := 37; target := 0 |} /\
   exists w',
     onKeyDown p 0 {| keyCode := 37; target := 0 |} w = Normal tt w' /\
     activeElement w' = Some (TabNode (length tabs - 1))).
Proof.
  intros Hchildren Hn. split; (split; [|eexists; split]).
  - apply (childNodes_lookup_tab p tabs Hchildren). lia.
  - apply (onKeyDown_all_tabs p tabs Hchildren); [lia|by right].
  - cbn [activeElement]. unfold neighbour.
    rewrite bool_decide_false by done.
    rewrite bool_decide_true by lia. done.
  - apply (childNodes_lookup_tab p tabs Hchildren). lia.
  - apply (onKeyDown_all_tabs p tabs Hchildren); [lia|by left].
  - cbn [activeElement]. unfold neighbour.
    by rewrite bool_decide_true by done.
Qed.

Lemma arrow_keys_wrap_witness :
  (delivered_to three_tabs 2 {| keyCode := 39; target := 2 |} /\
   exists w',
     onKeyDown three_tabs 2 {| keyCode := 39; target := 2 |} (focused_on 2)
     = Normal tt w' /\
     activeElement w' = Some (TabNode 0)) /\
  (delivered_to three_tabs 0 {| keyCode := 37; target := 0 |} /\
   exists w',
     onKeyDown three_tabs 0 {| keyCode := 37; target := 0 |} (focused_on 2)
     = Normal tt w' /\
     activeElement w' = Some (TabNode 2)).
Proof.
  apply (arrow_keys_wrap three_tabs [tab_A; tab_B; tab_C] (focused_on 2)).
  - reflexivity.
  - simpl. lia.
Defined.

(** C4: on a list of at least two tabs an arrow key moves focus to the
    neighbouring tab; with automatic activation [onSelect] is then called
    exactly once, with the key of the newly focused tab, and with manual
    activation it is not called. *)
Theorem arrow_key_activation (p : props) (tabs : list tab) (index : nat)
    (code : Z) (w : world) :
  children p = ChildArray (Some <$> tabs) ->
  (2 <= length tabs)%nat ->
  (index < length tabs)%nat ->
  code = 37 \/ code = 39 ->
  exists b,
    neighbour (length tabs) index code <> index /\
    render_tabs p !! neighbour (length tabs) index code = Some b /\
    button_index b = neighbour (length tabs) index code /\
    is_Some (button_key b) /\
    (keyboardActivation p = KEYBOARD_ACTIVATION.automatic ->
     onKeyDown p index {| keyCode := code; target := index |} w
     = Normal tt
         {| activeElement := Some (TabNode (button_index b));
            onSelect_calls := onSelect_calls w ++ [button_key b] |}) /\
    (keyboardActivation p = KEYBOARD_ACTIVATION.manual ->
     onKeyDown p index {| keyCode := code; target := index |} w
     = Normal tt
         {| activeElement := Some (TabNode (button_index b));
            onSelect_calls := onSelect_calls w |}).
Proof.
  intros Hchildren Hn Hindex Hcode.
  pose proof (neighbour_lt (length tabs) index code Hindex) as Hlt.
  destruct (lookup_lt_is_Some_2 tabs _ Hlt) as [c Hc].
  destruct (render_tabs_lookup p tabs Hchildren _ c Hc)
    as (b & Hb & Hbi & Hbk & _).
  exists b. split; [by apply neighbour_ne|]. split; [done|].
  split; [done|]. split; [by rewrite Hbk|].
  rewrite (onKeyDown_all_tabs p tabs Hchildren index code w Hindex Hcode).
  rewrite Hbi, Hbk, (tabKeys_lookup p tabs Hchildren _ c Hc).
  split; intros Hmode; rewrite Hmode.
  - by rewrite bool_decide_true by done.
  - rewrite bool_decide_false by done. by rewrite app_nil_r.
Qed.

Lemma arrow_key_activation_witness :
  onKeyDown three_tabs 0 {| keyCode := 39; target := 0 |} (focused_on 0)
  = Normal tt {| activeElement := Some (TabNode 1);
                 onSelect_calls := [Some "1"] |} /\
  onKeyDown manual_three_tabs 0 {| keyCode := 39; target := 0 |} (focused_on 0)
  = Normal tt {| activeElement := Some (TabNode 1); onSelect_calls := [] |}.
Proof.
  split.
  - destruct (arrow_key_activation three_tabs [tab_A; tab_B; tab_C] 0 39
                (focused_on 0))
      as (b & _ & Hb & _ & _ & Hautomatic & _).
    + reflexivity.
    + simpl. lia.
    + simpl. lia.
    + right. reflexivity.
    + vm_compute in Hb. injection Hb as <-.
      exact (Hautomatic eq_refl).
  - destruct (arrow_key_activation manual_three_tabs [tab_A; tab_B; tab_C]
                0 39 (focused_on 0))
      as (b & _ & Hb & _ & _ & _ & Hmanual).
    + reflexivity.
    + simpl. lia.
    + simpl. lia.
    + right. reflexivity.
    + vm_compute in Hb. injection Hb as <-.
      exact (Hmanual eq_refl).
Defined.

(** C2: arrow-key navigation is meant to follow the primary axis, left/right
    when horizontal and up/down when vertical.  Evaluated on two tabs laid
    out vertically: the up (38) and down (40) keys leave focus and the
    [onSelect] log as they were, while the right key (39) moves focus from the
    first tab to the second. *)
Theorem vertical_up_down_ignored :
  orientation vertical_two_tabs = ORIENTATION.vertical /\
  delivered_to vertical_two_tabs 0 {| keyCode := 40; target := 0 |} /\
  onKeyDown vertical_two_tabs 0 {| keyCode := 40; target := 0 |}
    (focused_on 0) = Normal tt (focused_on 0) /\
  delivered_to vertical_two_tabs 1 {| keyCode := 38; target := 1 |} /\
  onKeyDown vertical_two_tabs 1 {| keyCode := 38; target := 1 |}
    (focused_on 1) = Normal tt (focused_on 1) /\
  onKeyDown vertical_two_tabs 0 {| keyCode := 39; target := 0 |}
    (focused_on 0)
  = Normal tt {| activeElement := Some (TabNode 1);
                 onSelect_calls := [Some "1"] |}.
Proof. repeat split. Qed.

(** ** A single tab *)

Lemma at_index_elem_of {A : Type} (a : list A) (n : number) (x : A) :
  at_index a n = Some x -> x ∈ a.
Proof.
  destruct n as [z|]; [|done]. unfold at_index.
  case_bool_decide; [|done]. apply list_elem_of_lookup_2.
Qed.

Lemma single_tab_childNodes (p : props) (index : nat) (ev : event) :
  length (render_tabs p) = 1%nat ->
  delivered_to p index ev ->
  childNodes p = [TabNode index; AccentNode] /\ target ev = 0%nat.
Proof.
  unfold delivered_to, childNodes. intros Hone Hev.
  destruct (render_tabs p) as [|b [|b' bs]]; try done.
  cbn in *. destruct (target ev) as [|[|t]]; try done.
  by injection Hev as ->.
Qed.

(** C1, as the code has it: with exactly one tab present, the left and right
    arrow keys leave focus on that tab; with manual activation [onSelect] is
    not called; with automatic activation [onSelect] is called exactly once,
    with that tab's own key, when the tab is the only entry of a children
    array, or the only child and the key is the right arrow. *)
Theorem single_tab_arrow_key (p : props) (index : nat) (ev : event)
    (w : world) :
  length (render_tabs p) = 1%nat ->
  delivered_to p index ev ->
  keyCode ev = 37 \/ keyCode ev = 39 ->
  activeElement w = Some (TabNode index) ->
  activeElement (final_world (onKeyDown p index ev w))
  = Some (TabNode index) /\
  (keyboardActivation p = KEYBOARD_ACTIVATION.manual ->
   onSelect_calls (final_world (onKeyDown p index ev w))
   = onSelect_calls w) /\
  (keyboardActivation p = KEYBOARD_ACTIVATION.automatic ->
   forall c,
     children p = ChildArray [Some c] \/
     (children p = OnlyChild (Some c) /\ keyCode ev = 39) ->
     button_key <$> render_tabs p = [Some (key_or_index c 0)] /\
     onKeyDown p index ev w
     = Normal tt
         {| activeElement := Some (TabNode index);
            onSelect_calls :=
              onSelect_calls w ++ [Some (key_or_index c 0)] |}).
Proof.
  intros Hone Hev Hcode Hfocus.
  destruct (single_tab_childNodes p index ev Hone Hev) as [Hnodes Htarget].
  destruct w as [focused calls]. cbn in Hfocus. subst focused.
  unfold onKeyDown. rewrite Hnodes, Htarget.
  rewrite (orb_true_intro _ _
             (match Hcode with
              | or_introl H37 => or_introl (bool_decide_eq_true_2 _ H37)
              | or_intror H39 => or_intror (bool_decide_eq_true_2 _ H39)
              end)).
  cbn [previousSibling nextSibling lookup list_lookup lastElementChild last].
  rewrite (bool_decide_false (Some AccentNode <> Some AccentNode))
    by (intros Hne; by apply Hne).
  set (n := if bool_decide (keyCode ev = 37)
            then children_length_minus_1 (children p) else Int 0).
  assert (Hcases :
    at_index [TabNode index; AccentNode] n = None \/
    at_index [TabNode index; AccentNode] n = Some AccentNode \/
    (at_index [TabNode index; AccentNode] n = Some (TabNode index))).
  { destruct (at_index [TabNode index; AccentNode] n) as [x|] eqn:Hx;
      [|by left].
    apply at_index_elem_of in Hx. right.
    apply elem_of_cons in Hx as [->|Hx]; [by right|].
    apply elem_of_cons in Hx as [->|Hx]; [by left|].
    by apply elem_of_nil in Hx. }
  split; [|split].
  - unfold mbind, M_bind.
    destruct Hcases as [-> | [-> | ->]]; cbn; [done| |];
      by case_bool_decide.
  - intros Hmanual. rewrite Hmanual.
    rewrite (bool_decide_false
               (KEYBOARD_ACTIVATION.manual = KEYBOARD_ACTIVATION.automatic))
      by done.
    unfold mbind, M_bind.
    by destruct Hcases as [-> | [-> | ->]].
  - intros Hautomatic c Hchildren. rewrite Hautomatic.
    rewrite bool_decide_true by done.
    assert (Hkeys : tabKeys (children p) = [key_or_index c 0]
                    /\ n = Int 0).
    { subst n. destruct Hchildren as [-> | [-> H39]]; [|rewrite H39];
        (split; [done|]).
      - by case_bool_decide.
      - by rewrite bool_decide_false by done. }
    destruct Hkeys as [Hkeys Hn]. split.
    + unfold render_tabs.
      destruct Hchildren as [Hc | [Hc _]]; rewrite Hc; reflexivity.
    + rewrite Hn, Hkeys. reflexivity.
Qed.

Lemma single_tab_arrow_key_witness :
  (activeElement
     (final_world
        (onKeyDown manual_one_tab 0 {| keyCode := 37; target := 0 |}
           (focused_on 0))) = Some (TabNode 0) /\
   onSelect_calls
     (final_world
        (onKeyDown manual_one_tab 0 {| keyCode := 37; target := 0 |}
           (focused_on 0))) = []) /\
  onKeyDown one_tab 0 {| keyCode := 37; target := 0 |} (focused_on 0)
  = Normal tt {| activeElement := Some (TabNode 0);
                 onSelect_calls := [Some "0"] |}.
Proof.
  split.
  - destruct (single_tab_arrow_key manual_one_tab 0
                {| keyCode := 37; target := 0 |} (focused_on 0))
      as (Hfocus & Hmanual & _).
    + reflexivity.
    + reflexivity.
    + left. reflexivity.
    + reflexivity.
    + split; [exact Hfocus | exact (Hmanual eq_refl)].
  - destruct (single_tab_arrow_key one_tab 0
                {| keyCode := 37; target := 0 |} (focused_on 0))
      as (_ & _ & Hautomatic).
    + reflexivity.
    + reflexivity.
    + left. reflexivity.
    + reflexivity.
    + exact (proj2 (Hautomatic eq_refl tab_A (or_introl eq_refl))).
Defined.

(** C1 as stated fails: one tab, automatic activation (the default), right
    arrow.  Focus stays on the tab, but [onSelect] is called. *)
Lemma single_tab_automatic_calls_onSelect :
  length (render_tabs one_tab) = 1%nat /\
  delivered_to one_tab 0 {| keyCode := 39; target := 0 |} /\
  onKeyDown one_tab 0 {| keyCode := 39; target := 0 |} (focused_on 0)
  = Normal tt {| activeElement := Some (TabNode 0);
                 onSelect_calls := [Some "0"] |} /\
  ~ (activeElement
       (final_world
          (onKeyDown one_tab 0 {| keyCode := 39; target := 0 |}
             (focused_on 0))) = Some (TabNode 0) /\
     onSelect_calls
       (final_world
          (onKeyDown one_tab 0 {| keyCode := 39; target := 0 |}
             (focused_on 0))) = onSelect_calls (focused_on 0)).
Proof.
  repeat split. intros [_ Hcalls]. vm_compute in Hcalls. discriminate Hcalls.
Qed.

(** The only child given outside an array: [children.length] is [undefined],
    the left arrow computes [NaN] and [focus] is called on [undefined]. *)
Lemma only_child_left_arrow_throws (c : tab) (w : world) :
  onKeyDown (default_props (OnlyChild (Some c))) 0
    {| keyCode := 37; target := 0 |} w
  = Throw TypeError w.
Proof. reflexivity. Qed.

(** ** The styling helper *)

Lemma js_or_first_such (a b c : value) :
  a ||| b ||| c ||| VNull = first_such truthy [a; b; c].
Proof.
  unfold js_or, first_such. cbn.
  destruct (truthy a) eqn:Ha; rewrite ?Ha; [done|].
  destruct (truthy b) eqn:Hb; rewrite ?Hb; [done|].
  destruct (truthy c) eqn:Hc; by rewrite ?Hc.
Qed.

(** For the two orientations [helper] is the [||] chain over the three
    entries of the order. *)
Lemma helper_chain (orientation direction : string) (r : results) :
  orientation = ORIENTATION.horizontal \/
  orientation = ORIENTATION.vertical ->
  helper orientation direction r
  = orientation_direction_entry orientation direction r
    ||| orientation_entry orientation r
    ||| direction_entry direction r
    ||| VNull.
Proof.
  intros Horientation. unfold helper.
  unfold orientation_direction_entry, orientation_entry, direction_entry.
  destruct Horientation as [-> | ->];
    by destruct (bool_decide (direction = "rtl")).
Qed.

(** C5, as the code has it: for both orientations, every direction and every
    variant mapping, [helper] returns the first truthy value (defined and not
    the empty string, zero or [false]) in the order orientation+direction
    entry, orientation entry, direction entry, and [null] when there is
    none. *)
Theorem helper_first_truthy (orientation direction : string) (r : results) :
  orientation = ORIENTATION.horizontal \/
  orientation = ORIENTATION.vertical ->
  helper orientation direction r
  = first_such truthy (precedence orientation direction r).
Proof.
  intros Horientation. rewrite helper_chain by done.
  apply js_or_first_such.
Qed.

Lemma helper_first_truthy_witness :
  helper "vertical" "rtl"
    {| hltr := VUndefined; hrtl := VUndefined; vltr := VStr "left";
       vrtl := VUndefined; h := VUndefined; v := VStr "5px";
       ltr := VUndefined; rtl := VStr "right" |}
  = first_such truthy
      (precedence "vertical" "rtl"
         {| hltr := VUndefined; hrtl := VUndefined; vltr := VStr "left";
            vrtl := VUndefined; h := VUndefined; v := VStr "5px";
            ltr := VUndefined; rtl := VStr "right" |}).
Proof.
  apply (helper_first_truthy "vertical" "rtl"). right. reflexivity.
Defined.

(** On a mapping whose entries in the order are each absent or truthy (the
    non-empty strings that the styled components of this file pass), the
    first truthy entry is the first defined one. *)
Lemma helper_first_defined (orientation direction : string) (r : results) :
  orientation = ORIENTATION.horizontal \/
  orientation = ORIENTATION.vertical ->
  Forall (fun x => defined x = truthy x)
         (precedence orientation direction r) ->
  helper orientation direction r
  = first_such defined (precedence orientation direction r).
Proof.
  intros Horientation Hentries.
  rewrite helper_chain, js_or_first_such by done.
  fold (precedence orientation direction r). unfold first_such. f_equal.
  induction Hentries as [|x l Hx _ IH]; [done|].
  cbn. by rewrite Hx, IH.
Qed.

(** C5 as stated fails: an entry that is defined but falsy (here the empty
    string) is passed over for the next one in the order. *)
Lemma helper_skips_defined_falsy :
  helper "horizontal" "ltr"
    {| hltr := VStr ""; hrtl := VUndefined; vltr := VUndefined;
       vrtl := VUndefined; h := VStr "row"; v := VUndefined;
       ltr := VUndefined; rtl := VUndefined |}
  = VStr "row" /\
  first_such defined
    (precedence "horizontal" "ltr"
       {| hltr := VStr ""; hrtl := VUndefined; vltr := VUndefined;
          vrtl := VUndefined; h := VStr "row"; v := VUndefined;
          ltr := VUndefined; rtl := VUndefined |})
  = VStr "" /\
  helper "horizontal" "ltr"
    {| hltr := VStr ""; hrtl := VUndefined; vltr := VUndefined;
       vrtl := VUndefined; h := VStr "row"; v := VUndefined;
       ltr := VUndefined; rtl := VUndefined |}
  <> first_such defined
       (precedence "horizontal" "ltr"
          {| hltr := VStr ""; hrtl := VUndefined; vltr := VUndefined;
             vrtl := VUndefined; h := VStr "row"; v := VUndefined;
             ltr := VUndefined; rtl := VUndefined |}).
Proof. repeat split. intros Heq. vm_compute in Heq. discriminate Heq. Qed.

(** ** The accent layout *)

(** C6: when the orientation is horizontal and the direction is rtl, the
    distance is -(parent scrollWidth - offsetLeft - clientWidth) of the active
    tab; when horizontal and not rtl it is the tab's offsetLeft; when vertical
    it is the tab's offsetTop. *)
Theorem accent_distance (el : element) (accentLayout : accent_layout) :
  (forall parent,
     parentElement el = Some parent ->
     accent_effect ORIENTATION.horizontal "rtl" (Some el) accentLayout
     = Done {| length_ := clientWidth el;
               distance :=
                 - (scrollWidth parent - offsetLeft el - clientWidth el) |})
  /\
  (forall direction,
     direction <> "rtl" ->
     accent_effect ORIENTATION.horizontal direction (Some el) accentLayout
     = Done {| length_ := clientWidth el; distance := offsetLeft el |})
  /\
  (forall direction,
     accent_effect ORIENTATION.vertical direction (Some el) accentLayout
     = Done {| length_ := clientHeight el; distance := offsetTop el |}).
Proof.
  split; [|split].
  - intros parent Hparent. unfold accent_effect. rewrite Hparent.
    cbn. repeat f_equal; lia.
  - intros direction Hltr. unfold accent_effect.
    rewrite (bool_decide_false (direction = "rtl")) by done. done.
  - intros direction. reflexivity.
Qed.

Lemma accent_distance_witness :
  accent_effect ORIENTATION.horizontal "rtl" (Some measured_tab)
    initial_accentLayout
  = Done {| length_ := 80; distance := -180 |} /\
  accent_effect ORIENTATION.horizontal "ltr" (Some measured_tab)
    initial_accentLayout
  = Done {| length_ := 80; distance := 40 |}.
Proof.
  destruct (accent_distance measured_tab initial_accentLayout)
    as (Hrtl & Hltr & _).
  split.
  - exact (Hrtl {| scrollWidth := 300 |} eq_refl).
  - apply (Hltr "ltr"). discriminate.
Defined.

(** The one way the effect can fail: a horizontal rtl measure of an element
    without parent. *)
Lemma accent_effect_detached (el : element) (accentLayout : accent_layout) :
  parentElement el = None ->
  accent_effect ORIENTATION.horizontal "rtl" (Some el) accentLayout
  = Failed TypeError accentLayout.
Proof. intros Hparent. unfold accent_effect. by rewrite Hparent. Qed.

(** C8: when [activeTabRef.current] is not set, the effect ends normally and
    leaves [accentLayout] as it was; the state starts as
    [{length: 0, distance: 0}], so it is still that after a first effect that
    finds no element. *)
Theorem accent_effect_unresolved (orientation direction : string)
    (accentLayout : accent_layout) :
  accent_effect orientation direction None accentLayout = Done accentLayout /\
  initial_accentLayout = {| length_ := 0; distance := 0 |} /\
  accent_effect orientation direction None initial_accentLayout
  = Done {| length_ := 0; distance := 0 |}.
Proof. repeat split. Qed.

(** ** Exactly one active entry *)

(** In a list whose images under [f] are pairwise distinct, the entry with
    image [k] splits the list into entries with other images. *)
Lemma unique_match {A K : Type} (f : A -> K) (l : list A) (k : K) :
  NoDup (f <$> l) ->
  k ∈ f <$> l ->
  exists before x after,
    l = before ++ x :: after /\ f x = k /\
    Forall (fun y => f y <> k) (before ++ after).
Proof.
  intros Hnodup Hin.
  apply list_elem_of_fmap in Hin as (x & -> & Hx).
  apply list_elem_of_split in Hx as (before & after & ->).
  exists before, x, after. split; [done|]. split; [done|].
  rewrite fmap_app, fmap_cons in Hnodup.
  apply NoDup_app in Hnodup as (_ & Hbefore & Hafter).
  apply NoDup_cons in Hafter as [Hafter _].
  apply Forall_app. split; apply Forall_forall; intros y Hy Heq.
  - apply (Hbefore (f y)); [by apply list_elem_of_fmap_2|].
    rewrite Heq. apply list_elem_of_here.
  - apply Hafter. rewrite <- Heq. by apply list_elem_of_fmap_2.
Qed.

(** ** Panels *)

Lemma panel_keys (p : props) :
  panel_key <$> render_panels p = tabKeys (children p).
Proof.
  unfold render_panels, tabKeys. rewrite fmap_Children_map.
  apply Children_map_ext. by intros [c|] index.
Qed.

Lemma panel_attributes (p : props) (q : tab_panel) :
  q ∈ render_panels p ->
  panel_id q = getTabPanelId (Some (panel_key q)) /\
  aria_expanded q = bool_decide (panel_key q = activeTabKey p) /\
  hidden q = negb (bool_decide (panel_key q = activeTabKey p)).
Proof.
  intros Hq. apply elem_of_Children_map in Hq as (index & child & _ & Hq).
  destruct child as [c|]; [|done]. by injection Hq as <-.
Qed.

(** C7: for tabs with pairwise-distinct keys, one of which is
    [activeTabKey], exactly one rendered panel, the one with id
    [tabpanel_<activeTabKey>], has [aria-expanded] true and is not hidden;
    every other panel has [aria-expanded] false and is hidden. *)
Theorem one_panel_expanded (p : props) :
  NoDup (tabKeys (children p)) ->
  activeTabKey p ∈ tabKeys (children p) ->
  exists before q after,
    render_panels p = before ++ q :: after /\
    panel_id q = getTabPanelId (Some (activeTabKey p)) /\
    aria_expanded q = true /\
    hidden q = false /\
    Forall (fun q' =>
              aria_expanded q' = false /\ hidden q' = true /\
              panel_id q' <> getTabPanelId (Some (activeTabKey p)))
           (before ++ after).
Proof.
  intros Hnodup Hactive. rewrite <- panel_keys in Hnodup, Hactive.
  destruct (unique_match panel_key _ _ Hnodup Hactive)
    as (before & q & after & Hsplit & Hq & Hothers).
  exists before, q, after. split; [done|].
  assert (Hin : q ∈ render_panels p).
  { rewrite Hsplit. apply elem_of_app. right. apply list_elem_of_here. }
  destruct (panel_attributes p q Hin) as (-> & -> & ->).
  rewrite Hq, bool_decide_true by done. repeat split.
  apply Forall_forall. intros q' Hq'.
  assert (Hin' : q' ∈ render_panels p).
  { rewrite Hsplit. apply elem_of_app.
    apply elem_of_app in Hq' as [?|?]; [by left|right].
    by apply list_elem_of_further. }
  destruct (panel_attributes p q' Hin') as (-> & -> & ->).
  rewrite Forall_forall in Hothers. specialize (Hothers q' Hq').
  rewrite bool_decide_false by done. repeat split.
  unfold getTabPanelId. cbn [template default]. intros Heq.
  by apply (inj (String.app "tabpanel_")) in Heq.
Qed.

Lemma one_panel_expanded_witness :
  exists before q after,
    render_panels second_active = before ++ q :: after /\
    panel_id q = getTabPanelId (Some "1") /\
    aria_expanded q = true /\
    hidden q = false /\
    Forall (fun q' =>
              aria_expanded q' = false /\ hidden q' = true /\
              panel_id q' <> getTabPanelId (Some "1"))
           (before ++ after).
Proof.
  apply (one_panel_expanded second_active).
  - apply (bool_decide_unpack _). vm_compute. exact I.
  - apply (bool_decide_unpack _). vm_compute. exact I.
Defined.

(** ** Tabs *)

Lemma tab_attributes (p : props) (b : tab_button) :
  b ∈ render_tabs p ->
  tabIndex b
  = (if bool_decide (button_key b = Some (activeTabKey p))
     then "0" else "-1") /\
  aria_selected b = bool_decide (button_key b = Some (activeTabKey p)) /\
  button_id b = getTabId (button_key b) /\
  aria_controls b = getTabPanelId (button_key b).
Proof.
  intros Hb. apply elem_of_Children_map in Hb as (index & child & _ & Hb).
  destruct child as [c|]; [|done]. by injection Hb as <-.
Qed.

Lemma length_render_tabs (p : props) :
  length (render_tabs p) = length (omap id (Children_toArray (children p))).
Proof.
  apply length_Children_map; [|done]. intros c i. by eexists.
Qed.

(** C9: every rendered tab has tabindex "0" if its key is [activeTabKey] and
    "-1" otherwise; so, when the keys of the rendered tabs are pairwise
    distinct and one of them is [activeTabKey], exactly one tab has tabindex
    "0"; and when no key is [activeTabKey], no tab has tabindex "0" or
    [aria-selected] true, and a tab is still rendered for every child that is
    not falsy. *)
Theorem roving_tabindex (p : props) :
  (forall b,
     b ∈ render_tabs p ->
     tabIndex b
     = (if bool_decide (button_key b = Some (activeTabKey p))
        then "0" else "-1") /\
     aria_selected b = bool_decide (button_key b = Some (activeTabKey p))) /\
  (NoDup (button_key <$> render_tabs p) ->
   Some (activeTabKey p) ∈ button_key <$> render_tabs p ->
   exists before b after,
     render_tabs p = before ++ b :: after /\
     tabIndex b = "0" /\
     Forall (fun b' => tabIndex b' = "-1") (before ++ after)) /\
  (Some (activeTabKey p) ∉ button_key <$> render_tabs p ->
   Forall (fun b => tabIndex b = "-1" /\ aria_selected b = false)
          (render_tabs p) /\
   length (render_tabs p)
   = length (omap id (Children_toArray (children p)))).
Proof.
  split; [|split].
  - intros b Hb. by destruct (tab_attributes p b Hb) as (? & ? & _).
  - intros Hnodup Hactive.
    destruct (unique_match button_key _ _ Hnodup Hactive)
      as (before & b & after & Hsplit & Hb & Hothers).
    exists before, b, after. split; [done|].
    assert (Hin : b ∈ render_tabs p).
    { rewrite Hsplit. apply elem_of_app. right. apply list_elem_of_here. }
    destruct (tab_attributes p b Hin) as (-> & _).
    rewrite bool_decide_true by done. split; [done|].
    apply Forall_forall. intros b' Hb'.
    assert (Hin' : b' ∈ render_tabs p).
    { rewrite Hsplit. apply elem_of_app.
      apply elem_of_app in Hb' as [?|?]; [by left|right].
      by apply list_elem_of_further. }
    destruct (tab_attributes p b' Hin') as (-> & _).
    rewrite Forall_forall in Hothers. specialize (Hothers b' Hb').
    by rewrite bool_decide_false by done.
  - intros Hnone. split; [|apply length_render_tabs].
    apply Forall_forall. intros b Hb.
    destruct (tab_attributes p b Hb) as (-> & -> & _).
    rewrite bool_decide_false; [done|].
    intros Hkey. apply Hnone. rewrite <- Hkey.
    by apply list_elem_of_fmap_2.
Qed.

Lemma roving_tabindex_witness :
  (exists before b after,
     render_tabs second_active = before ++ b :: after /\
     tabIndex b = "0" /\
     Forall (fun b' => tabIndex b' = "-1") (before ++ after)) /\
  (Forall (fun b => tabIndex b = "-1" /\ aria_selected b = false)
          (render_tabs none_active) /\
   length (render_tabs none_active) = 3%nat).
Proof.
  split.
  - apply (roving_tabindex second_active).
    + apply (bool_decide_unpack _). vm_compute. exact I.
    + apply (bool_decide_unpack _). vm_compute. exact I.
  - apply (roving_tabindex none_active).
    apply (bool_decide_unpack _). vm_compute. exact I.
Defined.

(** ** Derived keys *)

Section keyless.
Variable p : props.
Variable tabs : list tab.
Hypothesis children_tabs : children p = ChildArray (Some <$> tabs).

Lemma render_panels_lookup (i : nat) (c : tab) :
  tabs !! i = Some c ->
  exists q,
    render_panels p !! i = Some q /\
    panel_key q = key_or_index c i /\
    panel_id q = getTabPanelId (Some (key_or_index c i)).
Proof.
  intros Hi. unfold render_panels. rewrite children_tabs.
  erewrite Children_map_all_tabs; [|intros; reflexivity].
  rewrite list_lookup_imap, Hi. eexists. split; [reflexivity|]. done.
Qed.

(** Without falsy entries, a child without an explicit key gets the decimal
    string of its position as key, in the tab, in the panel and in the
    first pass that the keyboard handler reads. *)
Lemma keyless_tab_keys (i : nat) (c : tab) :
  tabs !! i = Some c ->
  key c = None ->
  exists b q,
    render_tabs p !! i = Some b /\
    render_panels p !! i = Some q /\
    button_key b = Some (pretty i) /\
    button_id b = "tab_" +:+ pretty i /\
    aria_controls b = panel_id q /\
    panel_id q = "tabpanel_" +:+ pretty i /\
    tabKeys (children p) !! i = Some (pretty i).
Proof.
  intros Hi Hkey.
  destruct (render_tabs_lookup p tabs children_tabs i c Hi)
    as (b & Hb & _ & Hbk & Hbi & Hbc & _).
  destruct (render_panels_lookup i c Hi) as (q & Hq & _ & Hqi).
  assert (Hk : key_or_index c i = pretty i).
  { unfold key_or_index. by rewrite Hkey. }
  rewrite Hk in *. exists b, q. repeat split; try done.
  - congruence.
  - rewrite <- Hk. by apply (tabKeys_lookup p tabs children_tabs).
Qed.
End keyless.

(** C10: a child without an explicit key is meant to get the decimal string
    of its position among all children as key, the same in the tab id, the
    panel id and [aria-controls].  Evaluated on [[null, <Tab/>]]: the panel
    of the tab at position 1 is [tabpanel_1], but the first pass holds one
    key only, [tabKeys[1]] is [undefined], and the tab is rendered as
    [tab_undefined], controlling [tabpanel_undefined]. *)
Theorem falsy_entry_shifts_tab_keys :
  Children_toArray (children falsy_then_tab) = [None; Some tab_A] /\
  tabKeys (children falsy_then_tab) = ["1"] /\
  button_index <$> render_tabs falsy_then_tab = [1%nat] /\
  button_key <$> render_tabs falsy_then_tab = [None] /\
  button_id <$> render_tabs falsy_then_tab = ["tab_undefined"] /\
  aria_controls <$> render_tabs falsy_then_tab = ["tabpanel_undefined"] /\
  panel_id <$> render_panels falsy_then_tab = ["tabpanel_1"].
Proof. repeat split. Qed.

(** The same shift in the keyboard handler: with a falsy entry between the
    first and the second tab, the right arrow on the first tab focuses the
    second tab, rendered as [tab_3], and calls [onSelect] with "2". *)
Lemma falsy_entry_shifts_callback_key :
  button_id <$> render_tabs falsy_between_tabs
  = ["tab_0"; "tab_3"; "tab_undefined"] /\
  panel_id <$> render_panels falsy_between_tabs
  = ["tabpanel_0"; "tabpanel_2"; "tabpanel_3"] /\
  childNodes falsy_between_tabs
  = [TabNode 0; TabNode 2; TabNode 3; AccentNode] /\
  onKeyDown falsy_between_tabs 0 {| keyCode := 39; target := 0 |}
    (focused_on 0)
  = Normal tt {| activeElement := Some (TabNode 2);
                 onSelect_calls := [Some "2"] |}.
Proof. repeat split. Qed.

(** A falsy last entry counts in [children.length]: the left arrow on the
    first tab lands on the accent, focus stays, and [onSelect] is called with
    [undefined]. *)
Lemma falsy_last_entry_breaks_wrap :
  onKeyDown (default_props (ChildArray [Some tab_A; Some tab_B; None])) 0
    {| keyCode := 37; target := 0 |} (focused_on 0)
  = Normal tt {| activeElement := Some (TabNode 0);
                 onSelect_calls := [None] |}.
Proof. reflexivity. Qed.

(** * Further properties *)

(** ** Clicks *)

Lemma button_key_lookup (p : props) (b : tab_button) :
  b ∈ render_tabs p ->
  button_key b = tabKeys (children p) !! button_index b /\
  has_activeTabRef b = aria_selected b.
Proof.
  intros Hb. apply elem_of_Children_map in Hb as (index & child & _ & Hb).
  destruct child as [c|]; [|done]. by injection Hb as <-.
Qed.

(** X1: a click on a rendered tab calls [onSelect] once, with the key that
    tab is rendered with, and leaves focus alone, whatever the children. *)
Theorem click_selects_rendered_key (p : props) (b : tab_button) (w : world) :
  b ∈ render_tabs p ->
  onClick p (button_index b) w
  = Normal tt {| activeElement := activeElement w;
                 onSelect_calls := onSelect_calls w ++ [button_key b] |}.
Proof.
  intros Hb. destruct (button_key_lookup p b Hb) as [-> _]. reflexivity.
Qed.

Lemma click_selects_rendered_key_witness :
  onClick three_tabs 2 (focused_on 0)
  = Normal tt {| activeElement := Some (TabNode 0);
                 onSelect_calls := [Some "2"] |}.
Proof.
  exact (click_selects_rendered_key three_tabs _ (focused_on 0)
           (list_elem_of_lookup_2 (render_tabs three_tabs) 2 _ eq_refl)).
Defined.

(** ** What is rendered *)

Lemma length_render_panels (p : props) :
  length (render_panels p)
  = length (omap id (Children_toArray (children p))).
Proof.
  apply length_Children_map; [|done]. intros c i. by eexists.
Qed.

(** X2: one tab and one panel are rendered per child that is not falsy, and
    the tab list holds one more node, the accent; with no such child there
    is no tab and no panel, and the accent is alone in the list. *)
Theorem tabs_and_panels_count (p : props) :
  length (render_tabs p) = length (render_panels p) /\
  length (render_panels p)
  = length (omap id (Children_toArray (children p))) /\
  length (childNodes p) = S (length (render_tabs p)) /\
  (omap id (Children_toArray (children p)) = [] ->
   render_tabs p = [] /\ render_panels p = [] /\
   childNodes p = [AccentNode]).
Proof.
  split; [by rewrite length_render_tabs, length_render_panels|].
  split; [apply length_render_panels|]. split.
  - unfold childNodes. rewrite length_app, length_fmap. cbn. lia.
  - intros Hnone.
    assert (Htabs : render_tabs p = []).
    { apply nil_length_inv. by rewrite length_render_tabs, Hnone. }
    assert (Hpanels : render_panels p = []).
    { apply nil_length_inv. by rewrite length_render_panels, Hnone. }
    unfold childNodes. by rewrite Htabs.
Qed.

Lemma tabs_and_panels_count_witness :
  (render_tabs (default_props (ChildArray [])) = [] /\
   render_panels (default_props (ChildArray [])) = [] /\
   childNodes (default_props (ChildArray [])) = [AccentNode]) /\
  (render_tabs (default_props (OnlyChild None)) = [] /\
   render_panels (default_props (OnlyChild None)) = [] /\
   childNodes (default_props (OnlyChild None)) = [AccentNode]).
Proof.
  split.
  - apply (tabs_and_panels_count (default_props (ChildArray []))).
    reflexivity.
  - apply (tabs_and_panels_count (default_props (OnlyChild None))).
    reflexivity.
Defined.

Section linked.
Variable p : props.
Variable tabs : list tab.
Hypothesis children_tabs : children p = ChildArray (Some <$> tabs).

Lemma length_render_tabs_all_tabs : length (render_tabs p) = length tabs.
Proof.
  rewrite <- (length_fmap button_index),
    (button_indices_all_tabs p tabs children_tabs).
  apply length_seq.
Qed.

Lemma length_render_panels_all_tabs : length (render_panels p) = length tabs.
Proof.
  rewrite length_render_panels, <- length_render_tabs.
  apply length_render_tabs_all_tabs.
Qed.

Lemma button_keys_all_tabs :
  button_key <$> render_tabs p = Some <$> tabKeys (children p).
Proof.
  apply list_eq. intros i. rewrite !list_lookup_fmap.
  destruct (tabs !! i) as [c|] eqn:Hi.
  - destruct (render_tabs_lookup p tabs children_tabs i c Hi)
      as (b & Hb & _ & Hkey & _).
    rewrite Hb, (tabKeys_lookup p tabs children_tabs i c Hi). cbn.
    by rewrite Hkey.
  - apply lookup_ge_None in Hi.
    rewrite (lookup_ge_None_2 (render_tabs p))
      by (by rewrite length_render_tabs_all_tabs).
    rewrite (lookup_ge_None_2 (tabKeys (children p))); [done|].
    by rewrite (tabKeys_all_tabs p tabs children_tabs), length_imap.
Qed.

Lemma tabs_match_panels :
  aria_controls <$> render_tabs p = panel_id <$> render_panels p /\
  aria_selected <$> render_tabs p = aria_expanded <$> render_panels p.
Proof.
  split; apply list_eq; intros i; rewrite !list_lookup_fmap;
    (destruct (tabs !! i) as [c|] eqn:Hi;
     [ destruct (render_tabs_lookup p tabs children_tabs i c Hi)
         as (b & Hb & _ & _ & _ & Hcontrols & Hselected);
       destruct (render_panels_lookup p tabs children_tabs i c Hi)
         as (q & Hq & Hkey & Hid);
       destruct (panel_attributes p q (list_elem_of_lookup_2 _ _ _ Hq))
         as (_ & Hexpanded & _);
       rewrite Hb, Hq; cbn
     | apply lookup_ge_None in Hi;
       rewrite (lookup_ge_None_2 (render_tabs p))
         by (by rewrite length_render_tabs_all_tabs);
       by rewrite (lookup_ge_None_2 (render_panels p))
         by (by rewrite length_render_panels_all_tabs) ]).
  - by rewrite Hcontrols, Hid.
  - by rewrite Hselected, Hexpanded, Hkey.
Qed.
End linked.

(** X3: when no child is falsy, the tabs and the panels correspond position
    by position: each tab's [aria-controls] is the id of the panel at the same
    position, and the tab is [aria-selected] exactly when that panel is
    [aria-expanded]; this holds for duplicate keys and for an [activeTabKey]
    that no tab has as well. *)
Theorem tabs_linked_to_panels (p : props) (tabs : list tab) :
  children p = ChildArray (Some <$> tabs) ->
  aria_controls <$> render_tabs p = panel_id <$> render_panels p /\
  aria_selected <$> render_tabs p = aria_expanded <$> render_panels p /\
  button_children <$> render_tabs p = title <$> tabs /\
  panel_children <$> render_panels p = content <$> tabs.
Proof.
  intros Hchildren.
  destruct (tabs_match_panels p tabs Hchildren) as [Hcontrols Hselected].
  split; [done|]. split; [done|].
  unfold render_tabs, render_panels. rewrite Hchildren.
  split.
  - erewrite Children_map_all_tabs; [|intros; reflexivity].
    rewrite fmap_imap. apply list_eq. intros i.
    rewrite list_lookup_imap, list_lookup_fmap. by destruct (tabs !! i).
  - erewrite Children_map_all_tabs; [|intros; reflexivity].
    rewrite fmap_imap. apply list_eq. intros i.
    rewrite list_lookup_imap, list_lookup_fmap. by destruct (tabs !! i).
Qed.

Lemma tabs_linked_to_panels_witness :
  aria_controls <$> render_tabs second_active
  = panel_id <$> render_panels second_active /\
  aria_selected <$> render_tabs second_active
  = aria_expanded <$> render_panels second_active /\
  button_children <$> render_tabs second_active
  = title <$> [tab_A; tab_B; tab_C] /\
  panel_children <$> render_panels second_active
  = content <$> [tab_A; tab_B; tab_C].
Proof.
  apply (tabs_linked_to_panels second_active [tab_A; tab_B; tab_C]).
  reflexivity.
Defined.

(** ** Ids *)

Lemma tab_id_not_panel_id (k k' : option string) :
  getTabId k <> getTabPanelId k'.
Proof. unfold getTabId, getTabPanelId. intros Heq. inversion Heq. Qed.

Lemma button_ids (p : props) :
  button_id <$> render_tabs p = getTabId <$> (button_key <$> render_tabs p).
Proof.
  rewrite <- list_fmap_compose. apply list_fmap_ext. intros i b Hb.
  apply list_elem_of_lookup_2 in Hb.
  by destruct (tab_attributes p b Hb) as (_ & _ & -> & _).
Qed.

Lemma panel_ids (p : props) :
  panel_id <$> render_panels p
  = getTabPanelId ∘ Some <$> tabKeys (children p).
Proof.
  rewrite <- panel_keys, <- list_fmap_compose. apply list_fmap_ext.
  intros i q Hq. apply list_elem_of_lookup_2 in Hq.
  by destruct (panel_attributes p q Hq) as (-> & _).
Qed.

(** X4: when no child is falsy and the keys are pairwise distinct, the ids of
    all tabs and panels are pairwise distinct: no two elements of one [Tabs]
    share an id. *)
Theorem dom_ids_unique (p : props) (tabs : list tab) :
  children p = ChildArray (Some <$> tabs) ->
  NoDup (tabKeys (children p)) ->
  NoDup ((button_id <$> render_tabs p) ++ (panel_id <$> render_panels p)).
Proof.
  intros Hchildren Hkeys.
  rewrite button_ids, (button_keys_all_tabs p tabs Hchildren), panel_ids.
  rewrite <- list_fmap_compose.
  apply NoDup_app. split; [|split].
  - apply NoDup_fmap_2; [|done]. intros k k' Heq.
    by apply (inj (String.app "tab_")) in Heq.
  - intros id Htab Hpanel.
    apply list_elem_of_fmap in Htab as (k & -> & _).
    apply list_elem_of_fmap in Hpanel as (k' & Heq & _).
    by apply tab_id_not_panel_id in Heq.
  - apply NoDup_fmap_2; [|done]. intros k k' Heq.
    by apply (inj (String.app "tabpanel_")) in Heq.
Qed.

Lemma dom_ids_unique_witness :
  NoDup ((button_id <$> render_tabs three_tabs)
         ++ (panel_id <$> render_panels three_tabs)).
Proof.
  apply (dom_ids_unique three_tabs [tab_A; tab_B; tab_C]).
  - reflexivity.
  - apply (bool_decide_unpack _). vm_compute. exact I.
Defined.

(** ** Derived keys are distinct *)

Lemma derived_keys_NoDup (σ : nat -> nat) (cs : list (option tab)) :
  Inj (=) (=) σ ->
  (forall c, Some c ∈ cs -> key c = None \/ key c = Some "") ->
  NoDup (omap id (imap (fun index child =>
                          match child with
                          | Some c => Some (key_or_index c (σ index))
                          | None => None
                          end) cs)) /\
  forall k,
    k ∈ omap id (imap (fun index child =>
                         match child with
                         | Some c => Some (key_or_index c (σ index))
                         | None => None
                         end) cs) ->
    exists i, k = pretty (σ i).
Proof.
  revert σ. induction cs as [|child cs IH]; intros σ Hσ Hkeyless.
  { split; [constructor|]. intros k Hk. by apply elem_of_nil in Hk. }
  destruct (IH (σ ∘ S)) as [Hnodup Hform].
  { intros i j Hij. apply Hσ in Hij. by injection Hij. }
  { intros c Hc. apply Hkeyless. by apply list_elem_of_further. }
  destruct child as [c|]; cbn.
  - assert (Hkey : key_or_index c (σ 0%nat) = pretty (σ 0%nat)).
    { unfold key_or_index.
      destruct (Hkeyless c (list_elem_of_here _ _)) as [-> | ->]; done. }
    rewrite Hkey. split.
    + apply NoDup_cons. split; [|done]. intros Hin.
      apply Hform in Hin as (i & Hi). apply (inj pretty) in Hi.
      apply Hσ in Hi. discriminate Hi.
    + intros k Hk. apply elem_of_cons in Hk as [-> | Hk]; [by exists 0%nat|].
      apply Hform in Hk as (i & ->). by exists (S i).
  - split; [done|]. intros k Hk. apply Hform in Hk as (i & ->).
    by exists (S i).
Qed.

(** X5: children that carry no key, or the empty key, get pairwise distinct
    keys, whatever falsy entries lie between them. *)
Theorem keyless_children_distinct_keys (children : children_prop) :
  (forall c,
     Some c ∈ Children_toArray children -> key c = None \/ key c = Some "") ->
  NoDup (tabKeys children).
Proof.
  intros Hkeyless.
  by destruct (derived_keys_NoDup id (Children_toArray children) _ Hkeyless).
Qed.

Lemma keyless_children_distinct_keys_witness :
  NoDup (tabKeys (ChildArray [Some tab_A; None; Some tab_B; Some tab_C])).
Proof.
  apply keyless_children_distinct_keys. intros c Hc. left.
  repeat (apply elem_of_cons in Hc as [Hc | Hc];
          [try discriminate Hc; by injection Hc as -> |]).
  by apply elem_of_nil in Hc.
Defined.

(** ** What a key press can do, whatever the children *)

(** The handler on an arrow key: [focus] on the node at the computed index,
    then the optional [onSelect]. *)
Lemma onKeyDown_arrow (p : props) (index : nat) (ev : event) (w : world) :
  keyCode ev = 37 \/ keyCode ev = 39 ->
  exists n,
    onKeyDown p index ev w
    = (focus (at_index (childNodes p) n) ;;
       if bool_decide (keyboardActivation p = KEYBOARD_ACTIVATION.automatic)
       then onSelect (at_index (tabKeys (children p)) n)
       else mret tt) w.
Proof.
  intros Hcode. unfold onKeyDown.
  rewrite (orb_true_intro (bool_decide (keyCode ev = 37))
             (bool_decide (keyCode ev = 39)))
    by (destruct Hcode as [-> | ->]; auto).
  by eexists.
Qed.

Lemma keyCode_cases (ev : event) :
  (keyCode ev = 37 \/ keyCode ev = 39) \/
  (keyCode ev <> 37 /\ keyCode ev <> 39).
Proof. lia. Qed.

(** X6: with an activation mode other than automatic, no key press on any
    tab calls [onSelect], whatever the children, the key and the tab. *)
Theorem manual_never_selects (p : props) (index : nat) (ev : event)
    (w : world) :
  keyboardActivation p <> KEYBOARD_ACTIVATION.automatic ->
  onSelect_calls (final_world (onKeyDown p index ev w)) = onSelect_calls w.
Proof.
  intros Hmode. destruct (keyCode_cases ev) as [Hcode | [H37 H39]].
  - destruct (onKeyDown_arrow p index ev w Hcode) as [n ->].
    rewrite bool_decide_false by done. unfold mbind, M_bind.
    by destruct (at_index (childNodes p) n) as [[i|]|].
  - by rewrite onKeyDown_other_key.
Qed.

Lemma manual_never_selects_witness :
  onSelect_calls
    (final_world
       (onKeyDown manual_three_tabs 0 {| keyCode := 39; target := 0 |}
          (focused_on 0)))
  = [].
Proof.
  apply (manual_never_selects manual_three_tabs 0
           {| keyCode := 39; target := 0 |} (focused_on 0)).
  discriminate.
Defined.

(** X7: a key press on a tab, whatever the children, the key and the mode:
    if the handler throws, nothing has changed; it calls [onSelect] at most
    once; and focus is afterwards where it was or on a rendered tab. *)
Theorem onKeyDown_safe (p : props) (index : nat) (ev : event) (w : world) :
  match onKeyDown p index ev w with
  | Throw _ w' => w' = w
  | Normal _ _ => True
  end /\
  (exists calls,
     onSelect_calls (final_world (onKeyDown p index ev w))
     = onSelect_calls w ++ calls /\
     (length calls <= 1)%nat) /\
  (activeElement (final_world (onKeyDown p index ev w)) = activeElement w \/
   exists b,
     b ∈ render_tabs p /\
     activeElement (final_world (onKeyDown p index ev w))
     = Some (TabNode (button_index b))).
Proof.
  destruct (keyCode_cases ev) as [Hcode | [H37 H39]].
  - destruct (onKeyDown_arrow p index ev w Hcode) as [n ->].
    unfold mbind, M_bind.
    destruct (at_index (childNodes p) n) as [[i|]|] eqn:Hnode; cbn.
    + assert (Hi : exists b, b ∈ render_tabs p /\ i = button_index b).
      { apply at_index_elem_of in Hnode. unfold childNodes in Hnode.
        apply elem_of_app in Hnode as [Hnode | Hnode].
        - apply list_elem_of_fmap in Hnode as (b & Hb & Hin).
          exists b. split; [done|]. by injection Hb.
        - apply elem_of_cons in Hnode as [Hnode | Hnode]; [done|].
          by apply elem_of_nil in Hnode. }
      destruct Hi as (b & Hb & ->).
      case_bool_decide; cbn; (split; [done|]); split.
      * eexists. split; [done|]. cbn. lia.
      * right. by exists b.
      * exists []. split; [by rewrite app_nil_r|]. cbn. lia.
      * right. by exists b.
    + case_bool_decide; cbn; (split; [done|]); split.
      * eexists. split; [done|]. cbn. lia.
      * by left.
      * exists []. split; [by rewrite app_nil_r|]. cbn. lia.
      * by left.
    + split; [done|]. split; [|by left].
      exists []. split; [by rewrite app_nil_r|]. cbn. lia.
  - rewrite onKeyDown_other_key by done. cbn. split; [done|].
    split; [|by left]. exists []. split; [by rewrite app_nil_r|]. cbn. lia.
Qed.

(** ** Sequences of key presses on a list of tabs *)

Lemma neighbour_next (n index : nat) :
  (index < n)%nat -> neighbour n index 39 = (S index mod n)%nat.
Proof.
  intros Hindex. unfold neighbour. rewrite bool_decide_false by done.
  case_bool_decide as Hlast.
  - rewrite Hlast. symmetry. apply Nat.Div0.mod_same.
  - symmetry. apply Nat.mod_small. lia.
Qed.

Lemma neighbour_inverse (n index : nat) :
  (index < n)%nat ->
  neighbour n (neighbour n index 39) 37 = index /\
  neighbour n (neighbour n index 37) 39 = index.
Proof.
  intros Hindex. unfold neighbour.
  rewrite (bool_decide_false (39 = 37)) by done.
  rewrite (bool_decide_true (37 = 37)) by done.
  split.
  - case_bool_decide; lia.
  - destruct index as [|i].
    + rewrite bool_decide_true by lia. done.
    + rewrite bool_decide_false by lia. done.
Qed.

Section presses.
Variable p : props.
Variable tabs : list tab.
Hypothesis children_tabs : children p = ChildArray (Some <$> tabs).

Lemma find_tab_node (index : nat) :
  (index < length tabs)%nat ->
  list_find (fun x => x = TabNode index) (childNodes p)
  = Some (index, TabNode index).
Proof.
  intros Hindex. apply list_find_Some. split; [|split; [done|]].
  - by apply (childNodes_lookup_tab p tabs children_tabs).
  - intros j y Hj Hlt Hy. subst y.
    rewrite (childNodes_lookup_tab p tabs children_tabs) in Hj by lia.
    injection Hj as Hj. lia.
Qed.

(** A key press with focus on the tab of [index] is the handler of that tab
    run on itself. *)
Lemma keydown_all_tabs (index : nat) (code : Z) (w : world) :
  (index < length tabs)%nat ->
  code = 37 \/ code = 39 ->
  activeElement w = Some (TabNode index) ->
  exists w',
    keydown p code w = Normal tt w' /\
    activeElement w'
    = Some (TabNode (neighbour (length tabs) index code)).
Proof.
  intros Hindex Hcode Hfocus. unfold keydown.
  rewrite Hfocus, (find_tab_node index Hindex).
  rewrite (onKeyDown_all_tabs p tabs children_tabs index code w Hindex Hcode).
  by eexists.
Qed.
End presses.

(** X8: on a list of tabs, the right arrow followed by the left arrow, or
    the left arrow followed by the right arrow, brings focus back to the tab
    it started from, also across the wrap at both ends. *)
Theorem next_then_previous (p : props) (tabs : list tab) (index : nat)
    (w : world) :
  children p = ChildArray (Some <$> tabs) ->
  (index < length tabs)%nat ->
  activeElement w = Some (TabNode index) ->
  (exists w',
     (keydown p 39 ;; keydown p 37) w = Normal tt w' /\
     activeElement w' = Some (TabNode index)) /\
  (exists w',
     (keydown p 37 ;; keydown p 39) w = Normal tt w' /\
     activeElement w' = Some (TabNode index)).
Proof.
  intros Hchildren Hindex Hfocus.
  destruct (neighbour_inverse (length tabs) index Hindex) as [Hnp Hpn].
  split; unfold mbind, M_bind.
  - destruct (keydown_all_tabs p tabs Hchildren index 39 w)
      as (w1 & -> & Hw1); [done|by right|done|].
    destruct (keydown_all_tabs p tabs Hchildren _ 37 w1
                (neighbour_lt _ _ 39 Hindex) (or_introl eq_refl) Hw1)
      as (w2 & -> & Hw2).
    exists w2. by rewrite Hw2, Hnp.
  - destruct (keydown_all_tabs p tabs Hchildren index 37 w)
      as (w1 & -> & Hw1); [done|by left|done|].
    destruct (keydown_all_tabs p tabs Hchildren _ 39 w1
                (neighbour_lt _ _ 37 Hindex) (or_intror eq_refl) Hw1)
      as (w2 & -> & Hw2).
    exists w2. by rewrite Hw2, Hpn.
Qed.

Lemma next_then_previous_witness :
  (exists w',
     (keydown three_tabs 39 ;; keydown three_tabs 37) (focused_on 2)
     = Normal tt w' /\
     activeElement w' = Some (TabNode 2)) /\
  (exists w',
     (keydown three_tabs 37 ;; keydown three_tabs 39) (focused_on 2)
     = Normal tt w' /\
     activeElement w' = Some (TabNode 2)).
Proof.
  apply (next_then_previous three_tabs [tab_A; tab_B; tab_C] 2
           (focused_on 2)).
  - reflexivity.
  - simpl. lia.
  - reflexivity.
Defined.

(** X9: on a list of [N] tabs, [k] presses of the right arrow starting on
    the tab at position [i] end with focus on the tab at position
    [(i + k) mod N]: every tab can be reached with the keyboard, and [N]
    presses come back to the start. *)
Theorem right_arrow_presses (p : props) (tabs : list tab) (k index : nat)
    (w : world) :
  children p = ChildArray (Some <$> tabs) ->
  (index < length tabs)%nat ->
  activeElement w = Some (TabNode index) ->
  exists w',
    keydowns p 39 k w = Normal tt w' /\
    activeElement w' = Some (TabNode ((index + k) mod length tabs)).
Proof.
  intros Hchildren. revert index w.
  induction k as [|k IH]; intros index w Hindex Hfocus.
  - exists w. split; [done|].
    by rewrite Nat.add_0_r, Nat.mod_small.
  - cbn [keydowns]. unfold mbind, M_bind.
    destruct (keydown_all_tabs p tabs Hchildren index 39 w)
      as (w1 & -> & Hw1); [done|by right|done|].
    destruct (IH _ w1 (neighbour_lt _ _ 39 Hindex) Hw1) as (w' & -> & Hw').
    exists w'. split; [done|]. rewrite Hw'. do 2 f_equal.
    rewrite neighbour_next by done.
    rewrite Nat.Div0.add_mod_idemp_l. f_equal. lia.
Qed.

Lemma right_arrow_presses_witness :
  exists w',
    keydowns three_tabs 39 3 (focused_on 1) = Normal tt w' /\
    activeElement w' = Some (TabNode ((1 + 3) mod 3)).
Proof.
  apply (right_arrow_presses three_tabs [tab_A; tab_B; tab_C] 3 1
           (focused_on 1)).
  - reflexivity.
  - simpl. lia.
  - reflexivity.
Defined.

(** ** More on the styling helper *)

Lemma js_or_chain_null_or_truthy (a b c : value) :
  a ||| b ||| c ||| VNull = VNull \/
  truthy (a ||| b ||| c ||| VNull) = true.
Proof.
  unfold js_or.
  destruct (truthy a) eqn:Ha; rewrite ?Ha; [by right|].
  destruct (truthy b) eqn:Hb; rewrite ?Hb; [by right|].
  destruct (truthy c) eqn:Hc; rewrite ?Hc; [by right|by left].
Qed.

(** X10: for every orientation, direction and mapping, [helper] returns
    [null] or a truthy value: never [undefined], the empty string, zero or
    [false], so a style property is either set or [null]. *)
Theorem helper_null_or_truthy (orientation direction : string)
    (r : results) :
  helper orientation direction r = VNull \/
  truthy (helper orientation direction r) = true.
Proof.
  unfold helper.
  repeat (match goal with
          | |- context [if ?b then _ else _] => destruct b
          end; try apply js_or_chain_null_or_truthy).
  by left.
Qed.

Lemma helper_not_rtl (orientation direction : string) (r : results) :
  direction <> "rtl" ->
  helper orientation direction r = helper orientation "ltr" r.
Proof.
  intros Hd. unfold helper.
  rewrite !(bool_decide_false (direction = "rtl")) by done.
  by rewrite !(bool_decide_false ("ltr" = "rtl")) by done.
Qed.

(** X11: a direction that is not "rtl" (an absent one, "auto", a misspelt
    one) gives what "ltr" gives, and an orientation that is neither of the
    two gives [null], whatever the mapping. *)
Theorem helper_defaults (orientation direction : string) (r : results) :
  (direction <> "rtl" ->
   helper orientation direction r = helper orientation "ltr" r) /\
  (orientation <> ORIENTATION.horizontal ->
   orientation <> ORIENTATION.vertical ->
   helper orientation direction r = VNull).
Proof.
  split; [apply helper_not_rtl|].
  intros Hh Hv. unfold helper.
  rewrite !(bool_decide_false (orientation = ORIENTATION.horizontal)),
    !(bool_decide_false (orientation = ORIENTATION.vertical)) by done.
  done.
Qed.

Lemma helper_defaults_witness :
  helper "vertical" "auto" (results_of [("vltr", VStr "5px")])
  = helper "vertical" "ltr" (results_of [("vltr", VStr "5px")]) /\
  helper "diagonal" "rtl" (results_of [("rtl", VStr "5px")]) = VNull.
Proof.
  split.
  - apply (helper_defaults "vertical" "auto"). discriminate.
  - apply (helper_defaults "diagonal" "rtl"); discriminate.
Defined.

(** ** Styles *)

(** Reading the styles: the orientation and the fill are known, the
    direction is "rtl" or treated as "ltr". *)
Ltac by_direction t :=
  generalize (direction t); intros d;
  destruct (decide (d = "rtl")) as [-> | Hd];
  [ reflexivity
  | unfold helper;
    rewrite ?(bool_decide_false (d = "rtl")) by done;
    reflexivity ].

(** X12: the root and the tab list are laid out across each other: when
    horizontal the root is a column (list above panels) and the list a row,
    when vertical the root is a row and the list a column, for every
    direction and fill. *)
Theorem flex_directions (p : props) (t : theme) :
  (orientation p = ORIENTATION.horizontal ->
   declared "flexDirection" (root_style p t) = Plain (VStr "column") /\
   declared "flexDirection" (tab_list_style p t) = Plain (VStr "row")) /\
  (orientation p = ORIENTATION.vertical ->
   declared "flexDirection" (root_style p t) = Plain (VStr "row") /\
   declared "flexDirection" (tab_list_style p t) = Plain (VStr "column")).
Proof.
  unfold root_style, tab_list_style, StyledRoot, StyledTabList.
  split; intros ->; (split; [by_direction t|]);
    destruct (bool_decide (fill p = FILL.intrinsic)); by_direction t.
Qed.

Lemma flex_directions_witness :
  (declared "flexDirection" (root_style three_tabs light_theme)
   = Plain (VStr "column") /\
   declared "flexDirection" (tab_list_style three_tabs light_theme)
   = Plain (VStr "row")) /\
  (declared "flexDirection" (root_style vertical_two_tabs light_theme)
   = Plain (VStr "row") /\
   declared "flexDirection" (tab_list_style vertical_two_tabs light_theme)
   = Plain (VStr "column")).
Proof.
  split.
  - apply (flex_directions three_tabs light_theme). reflexivity.
  - apply (flex_directions vertical_two_tabs light_theme). reflexivity.
Defined.

Ltac by_known_direction t :=
  match goal with
  | H : direction t = "rtl" |- _ => rewrite ?H; reflexivity
  | H : direction t <> "rtl" |- _ =>
      unfold helper;
      rewrite ?(bool_decide_false (direction t = "rtl")) by done;
      reflexivity
  end.

(** X13: with the intrinsic fill the tab list scrolls along its own axis
    only (x when horizontal, y when vertical) and hides its scroll bar; with
    any other fill the style has no overflow or scroll bar property at
    all. *)
Theorem overflow_follows_fill (p : props) (t : theme) :
  (fill p = FILL.intrinsic ->
   declared "scrollbarWidth" (tab_list_style p t) = Plain (VStr "none") /\
   declared "-ms-overflow-style" (tab_list_style p t) = Plain (VStr "none") /\
   declared "::-webkit-scrollbar" (tab_list_style p t)
   = Nested [("display", VStr "none")] /\
   (orientation p = ORIENTATION.horizontal ->
    declared "overflowX" (tab_list_style p t) = Plain (VStr "scroll") /\
    declared "overflowY" (tab_list_style p t) = Plain VNull) /\
   (orientation p = ORIENTATION.vertical ->
    declared "overflowX" (tab_list_style p t) = Plain VNull /\
    declared "overflowY" (tab_list_style p t) = Plain (VStr "scroll"))) /\
  (fill p <> FILL.intrinsic ->
   get "overflowX" (tab_list_style p t) = None /\
   get "overflowY" (tab_list_style p t) = None /\
   get "scrollbarWidth" (tab_list_style p t) = None /\
   get "-ms-overflow-style" (tab_list_style p t) = None /\
   get "::-webkit-scrollbar" (tab_list_style p t) = None).
Proof.
  unfold tab_list_style, StyledTabList. split.
  - intros ->. rewrite bool_decide_true by done.
    repeat split; try reflexivity; rewrite ?H; by_direction t.
  - intros Hfill. rewrite bool_decide_false by done.
    repeat split; reflexivity.
Qed.

Lemma overflow_follows_fill_witness :
  (declared "overflowX" (tab_list_style three_tabs light_theme)
   = Plain (VStr "scroll") /\
   declared "overflowY" (tab_list_style three_tabs light_theme)
   = Plain VNull) /\
  (declared "overflowX" (tab_list_style vertical_two_tabs light_theme)
   = Plain VNull /\
   declared "overflowY" (tab_list_style vertical_two_tabs light_theme)
   = Plain (VStr "scroll")) /\
  get "overflowX" (tab_list_style fixed_fill light_theme) = None.
Proof.
  split; [|split].
  - destruct (overflow_follows_fill three_tabs light_theme) as [Hin _].
    destruct (Hin eq_refl) as (_ & _ & _ & Hh & _). exact (Hh eq_refl).
  - destruct (overflow_follows_fill vertical_two_tabs light_theme)
      as [Hin _].
    destruct (Hin eq_refl) as (_ & _ & _ & _ & Hv). exact (Hv eq_refl).
  - destruct (overflow_follows_fill fixed_fill light_theme) as [_ Hfixed].
    apply Hfixed. discriminate.
Defined.

(** X14: the accent lies along the edge where the tab list keeps 5px free
    for it, and the list has that padding on no other side: the bottom when
    horizontal, the right when vertical and not rtl, the left when vertical
    and rtl; when horizontal the accent is anchored left unless the
    direction is rtl, and right when it is. *)
Theorem accent_edge (p : props) (t : theme) (layout : accent_layout) :
  (orientation p = ORIENTATION.horizontal ->
   declared "bottom" (accent_style p t layout) = Plain (VStr "0") /\
   declared "paddingBottom" (tab_list_style p t) = Plain (VStr "5px") /\
   declared "paddingLeft" (tab_list_style p t) = Plain VNull /\
   declared "paddingRight" (tab_list_style p t) = Plain VNull) /\
  (orientation p = ORIENTATION.horizontal -> direction t <> "rtl" ->
   declared "left" (accent_style p t layout) = Plain (VStr "0") /\
   declared "right" (accent_style p t layout) = Plain VNull) /\
  (orientation p = ORIENTATION.horizontal -> direction t = "rtl" ->
   declared "right" (accent_style p t layout) = Plain (VStr "0") /\
   declared "left" (accent_style p t layout) = Plain VNull) /\
  (orientation p = ORIENTATION.vertical -> direction t <> "rtl" ->
   declared "right" (accent_style p t layout) = Plain (VStr "0") /\
   declared "left" (accent_style p t layout) = Plain VNull /\
   declared "bottom" (accent_style p t layout) = Plain VNull /\
   declared "paddingRight" (tab_list_style p t) = Plain (VStr "5px") /\
   declared "paddingLeft" (tab_list_style p t) = Plain VNull /\
   declared "paddingBottom" (tab_list_style p t) = Plain VNull) /\
  (orientation p = ORIENTATION.vertical -> direction t = "rtl" ->
   declared "left" (accent_style p t layout) = Plain (VStr "0") /\
   declared "right" (accent_style p t layout) = Plain VNull /\
   declared "bottom" (accent_style p t layout) = Plain VNull /\
   declared "paddingLeft" (tab_list_style p t) = Plain (VStr "5px") /\
   declared "paddingRight" (tab_list_style p t) = Plain VNull /\
   declared "paddingBottom" (tab_list_style p t) = Plain VNull).
Proof.
  unfold accent_style, tab_list_style, StyledTabAccent, StyledTabList.
  destruct (bool_decide (fill p = FILL.intrinsic)).
  all: split; [intros ->; repeat split; by_direction t|].
  all: repeat split; rewrite ?H; by_known_direction t.
Qed.

Lemma accent_edge_witness :
  (declared "bottom" (accent_style three_tabs light_theme initial_accentLayout)
   = Plain (VStr "0") /\
   declared "left" (accent_style three_tabs light_theme initial_accentLayout)
   = Plain (VStr "0")) /\
  (declared "right"
     (accent_style vertical_two_tabs light_theme initial_accentLayout)
   = Plain (VStr "0") /\
   declared "paddingRight" (tab_list_style vertical_two_tabs light_theme)
   = Plain (VStr "5px")).
Proof.
  destruct (accent_edge three_tabs light_theme initial_accentLayout)
    as (Hh & Hhltr & _).
  destruct (accent_edge vertical_two_tabs light_theme initial_accentLayout)
    as (_ & _ & _ & Hvltr & _).
  split.
  - split.
    + exact (proj1 (Hh eq_refl)).
    + apply Hhltr; [reflexivity | discriminate].
  - destruct Hvltr as (Hright & _ & _ & Hpadding & _);
      [reflexivity | discriminate |].
    by split.
Defined.

(** X15: the accent is 5px thick and as long as the measured [length], and
    it is shifted by [distance] along the axis of the list: width and
    [translateX] when horizontal, height and [translateY] when vertical. *)
Theorem accent_follows_layout (p : props) (t : theme)
    (layout : accent_layout) :
  (orientation p = ORIENTATION.horizontal ->
   declared "width" (accent_style p t layout)
   = Plain (VStr (pretty (length_ layout) +:+ "px")) /\
   declared "height" (accent_style p t layout) = Plain (VStr "5px") /\
   declared "transform" (accent_style p t layout)
   = Plain (VStr ("translateX(" +:+ pretty (distance layout) +:+ "px)"))) /\
  (orientation p = ORIENTATION.vertical ->
   declared "height" (accent_style p t layout)
   = Plain (VStr (pretty (length_ layout) +:+ "px")) /\
   declared "width" (accent_style p t layout) = Plain (VStr "5px") /\
   declared "transform" (accent_style p t layout)
   = Plain (VStr ("translateY(" +:+ pretty (distance layout) +:+ "px)"))).
Proof.
  unfold accent_style, StyledTabAccent. cbn [default from_option id].
  generalize (pretty (length_ layout)) as len.
  generalize (pretty (distance layout)) as dist. intros dist len.
  split; intros ->; repeat split; destruct len; by_direction t.
Qed.

Lemma accent_follows_layout_witness :
  (declared "width"
     (accent_style three_tabs light_theme {| length_ := 80; distance := -180 |})
   = Plain (VStr "80px") /\
   declared "transform"
     (accent_style three_tabs light_theme {| length_ := 80; distance := -180 |})
   = Plain (VStr "translateX(-180px)")) /\
  declared "height"
    (accent_style vertical_two_tabs light_theme initial_accentLayout)
  = Plain (VStr "0px").
Proof.
  destruct (accent_follows_layout three_tabs light_theme
              {| length_ := 80; distance := -180 |}) as [Hh _].
  destruct (accent_follows_layout vertical_two_tabs light_theme
              initial_accentLayout) as [_ Hv].
  split.
  - destruct (Hh eq_refl) as (Hwidth & _ & Htransform). by split.
  - exact (proj1 (Hv eq_refl)).
Defined.

(** ** The ref and the effects *)

Lemma filter_none {A : Type} (P : A -> Prop) `{!forall x, Decision (P x)}
    (l : list A) :
  Forall (fun x => ~ P x) l -> filter P l = [].
Proof.
  induction 1 as [|x l Hx _ IH]; [done|].
  by rewrite filter_cons_False.
Qed.

Lemma activeTabRef_unset (p : props) (mounted : nat -> element) :
  Some (activeTabKey p) ∉ button_key <$> render_tabs p ->
  activeTabRef_current p mounted = None.
Proof.
  intros Hnone. unfold activeTabRef_current.
  rewrite filter_none; [done|].
  apply Forall_forall. intros b Hb.
  destruct (button_key_lookup p b Hb) as [_ ->].
  destruct (tab_attributes p b Hb) as (_ & -> & _).
  rewrite bool_decide_false; [done|].
  intros Hkey. apply Hnone. rewrite <- Hkey. by apply list_elem_of_fmap_2.
Qed.

Lemma activeTabRef_active_tab (p : props) (mounted : nat -> element)
    (tabs : list tab) (i : nat) (c : tab) :
  children p = ChildArray (Some <$> tabs) ->
  NoDup (tabKeys (children p)) ->
  tabs !! i = Some c ->
  key_or_index c i = activeTabKey p ->
  activeTabRef_current p mounted = Some (mounted i).
Proof.
  intros Hchildren Hkeys Hi Hactive.
  destruct (render_tabs_lookup p tabs Hchildren i c Hi)
    as (b & Hb & Hindex & Hkey & _).
  rewrite Hactive in Hkey.
  assert (Hnodup : NoDup (button_key <$> render_tabs p)).
  { rewrite (button_keys_all_tabs p tabs Hchildren).
    apply NoDup_fmap_2; [|done]. by intros k k' [= ->]. }
  assert (Hin : b ∈ render_tabs p) by by apply list_elem_of_lookup_2 in Hb.
  destruct (unique_match button_key _ (Some (activeTabKey p)) Hnodup)
    as (before & x & after & Hsplit & Hx & Hothers).
  { rewrite <- Hkey. by apply list_elem_of_fmap_2. }
  assert (b = x) as <-.
  { rewrite Hsplit in Hin. rewrite Forall_forall in Hothers.
    apply elem_of_app in Hin as [Hin | Hin].
    - destruct (Hothers b); [apply elem_of_app; by left | done].
    - apply elem_of_cons in Hin as [Hin | Hin]; [done|].
      destruct (Hothers b); [apply elem_of_app; by right | done]. }
  assert (Hrest : Forall (fun y => ~ has_activeTabRef y = true)
                         (before ++ after)).
  { apply Forall_forall. intros y Hy.
    assert (Hy' : y ∈ render_tabs p).
    { rewrite Hsplit. apply elem_of_app.
      apply elem_of_app in Hy as [?|?]; [by left | right].
      by apply list_elem_of_further. }
    destruct (button_key_lookup p y Hy') as [_ ->].
    destruct (tab_attributes p y Hy') as (_ & -> & _).
    rewrite Forall_forall in Hothers.
    by rewrite bool_decide_false by by apply Hothers. }
  apply Forall_app in Hrest as [Hbefore Hafter].
  unfold activeTabRef_current.
  rewrite Hsplit, filter_app, filter_cons_True, !filter_none; try done.
  - cbn. by rewrite Hindex.
  - destruct (button_key_lookup p b Hin) as [_ ->].
    destruct (tab_attributes p b Hin) as (_ & -> & _).
    by rewrite bool_decide_true.
Qed.

(** X16: when [activeTabKey] is the key of no rendered tab, the ref stays
    unset: after the first render the accent layout is still
    [{length: 0, distance: 0}] and nothing is scrolled, and after any later
    render the state is what it was. *)
Theorem no_active_tab_no_effect (prev p : props) (t : theme)
    (mounted : nat -> element) (st : instance) :
  Some (activeTabKey p) ∉ button_key <$> render_tabs p ->
  activeTabRef_current p mounted = None /\
  effects_after_mount p t mounted = Committed initial_instance /\
  effects_after_update prev p t mounted st = Committed st.
Proof.
  intros Hnone.
  pose proof (activeTabRef_unset p mounted Hnone) as Href.
  split; [done|]. split.
  - unfold effects_after_mount, key_change_effects. by rewrite Href.
  - unfold effects_after_update, key_change_effects. rewrite Href.
    case_bool_decide; [done|]. cbn. rewrite app_nil_r. by destruct st.
Qed.

Lemma no_active_tab_no_effect_witness :
  activeTabRef_current none_active mounted_at = None /\
  effects_after_mount none_active light_theme mounted_at
  = Committed initial_instance /\
  effects_after_update three_tabs none_active light_theme mounted_at
    initial_instance
  = Committed initial_instance.
Proof.
  apply (no_active_tab_no_effect three_tabs none_active light_theme
           mounted_at initial_instance).
  apply (bool_decide_unpack _). vm_compute. exact I.
Defined.

(** X17: when no child is falsy, the keys are pairwise distinct and
    [activeTabKey] is the key of the tab at position [i], the ref holds that
    tab's element; after the first render the accent layout is that
    element's measure along the axis (width and left offset when horizontal
    and not rtl, height and top offset when vertical), and the element has
    been scrolled to twice: first to the start, centred, then smoothly to
    the nearest edge. *)
Theorem mount_measures_active_tab (p : props) (t : theme)
    (mounted : nat -> element) (tabs : list tab) (i : nat) (c : tab) :
  children p = ChildArray (Some <$> tabs) ->
  NoDup (tabKeys (children p)) ->
  tabs !! i = Some c ->
  key_or_index c i = activeTabKey p ->
  activeTabRef_current p mounted = Some (mounted i) /\
  (orientation p = ORIENTATION.horizontal -> direction t <> "rtl" ->
   effects_after_mount p t mounted
   = Committed
       {| accentLayout :=
            {| length_ := clientWidth (mounted i);
               distance := offsetLeft (mounted i) |};
          scrollIntoView_calls :=
            [ (mounted i, {| behavior := VUndefined; block := "start";
                             inline := "center" |});
              (mounted i, {| behavior := VStr "smooth"; block := "nearest";
                             inline := "nearest" |}) ] |}) /\
  (orientation p = ORIENTATION.vertical ->
   effects_after_mount p t mounted
   = Committed
       {| accentLayout :=
            {| length_ := clientHeight (mounted i);
               distance := offsetTop (mounted i) |};
          scrollIntoView_calls :=
            [ (mounted i, {| behavior := VUndefined; block := "start";
                             inline := "center" |});
              (mounted i, {| behavior := VStr "smooth"; block := "nearest";
                             inline := "nearest" |}) ] |}).
Proof.
  intros Hchildren Hkeys Hi Hactive.
  pose proof (activeTabRef_active_tab p mounted tabs i c
                Hchildren Hkeys Hi Hactive) as Href.
  split; [done|].
  unfold effects_after_mount, key_change_effects. rewrite Href.
  split.
  - intros -> Hd. unfold accent_effect.
    by rewrite (bool_decide_false (direction t = "rtl")) by done.
  - by intros ->.
Qed.

Lemma mount_measures_active_tab_witness :
  activeTabRef_current second_active mounted_at = Some (mounted_at 1) /\
  effects_after_mount second_active light_theme mounted_at
  = Committed
      {| accentLayout := {| length_ := 80; distance := 80 |};
         scrollIntoView_calls :=
           [ (mounted_at 1, {| behavior := VUndefined; block := "start";
                               inline := "center" |});
             (mounted_at 1, {| behavior := VStr "smooth";
                               block := "nearest";
                               inline := "nearest" |}) ] |}.
Proof.
  destruct (mount_measures_active_tab second_active light_theme mounted_at
              [tab_A; tab_B; tab_C] 1 tab_B) as (Href & Hh & _).
  - reflexivity.
  - apply (bool_decide_unpack _). vm_compute. exact I.
  - reflexivity.
  - reflexivity.
  - split; [exact Href|]. apply Hh; [reflexivity | discriminate].
Defined.

(** X18: a later render with the same [activeTabKey] runs no effect: the
    accent keeps the layout it had, also when the orientation, the direction
    or the children changed.  A render with another [activeTabKey], under
    the conditions of X17, replaces the layout by the measure of the newly
    active tab and adds one smooth scroll to it. *)
Theorem update_effects (prev p : props) (t : theme)
    (mounted : nat -> element) (st : instance) :
  (activeTabKey prev = activeTabKey p ->
   effects_after_update prev p t mounted st = Committed st) /\
  (activeTabKey prev <> activeTabKey p ->
   forall tabs i c layout,
     children p = ChildArray (Some <$> tabs) ->
     NoDup (tabKeys (children p)) ->
     tabs !! i = Some c ->
     key_or_index c i = activeTabKey p ->
     accent_effect (orientation p) (direction t) (Some (mounted i))
       (accentLayout st) = Done layout ->
     effects_after_update prev p t mounted st
     = Committed
         {| accentLayout := layout;
            scrollIntoView_calls :=
              scrollIntoView_calls st
              ++ [ (mounted i, {| behavior := VStr "smooth";
                                  block := "nearest";
                                  inline := "nearest" |}) ] |}).
Proof.
  unfold effects_after_update. split.
  - intros Hsame. by rewrite bool_decide_true.
  - intros Hchanged tabs i c layout Hchildren Hkeys Hi Hactive Hlayout.
    rewrite bool_decide_false by done. unfold key_change_effects.
    rewrite (activeTabRef_active_tab p mounted tabs i c
               Hchildren Hkeys Hi Hactive), Hlayout.
    done.
Qed.

Lemma update_effects_witness :
  effects_after_update three_tabs vertical_first_active light_theme
    mounted_at
    {| accentLayout := {| length_ := 80; distance := 0 |};
       scrollIntoView_calls := [] |}
  = Committed {| accentLayout := {| length_ := 80; distance := 0 |};
                 scrollIntoView_calls := [] |} /\
  effects_after_update three_tabs second_active light_theme mounted_at
    {| accentLayout := {| length_ := 80; distance := 0 |};
       scrollIntoView_calls := [] |}
  = Committed
      {| accentLayout := {| length_ := 80; distance := 80 |};
         scrollIntoView_calls :=
           [ (mounted_at 1, {| behavior := VStr "smooth";
                               block := "nearest";
                               inline := "nearest" |}) ] |}.
Proof.
  split.
  - apply (update_effects three_tabs vertical_first_active). reflexivity.
  - destruct (update_effects three_tabs second_active light_theme mounted_at
                {| accentLayout := {| length_ := 80; distance := 0 |};
                   scrollIntoView_calls := [] |}) as [_ Hchanged].
    apply (Hchanged ltac:(discriminate) [tab_A; tab_B; tab_C] 1%nat tab_B).
    + reflexivity.
    + apply (bool_decide_unpack _). vm_compute. exact I.
    + reflexivity.
    + reflexivity.
    + reflexivity.
Defined.

(** ** Selection applied by the parent *)

Lemma selected_after_select (p : props) (tabs : list tab) (i : nat)
    (c : tab) :
  children p = ChildArray (Some <$> tabs) ->
  tabs !! i = Some c ->
  exists b q,
    render_tabs (with_activeTabKey p (key_or_index c i)) !! i = Some b /\
    render_panels (with_activeTabKey p (key_or_index c i)) !! i = Some q /\
    tabIndex b = "0" /\ aria_selected b = true /\
    aria_expanded q = true /\ hidden q = false.
Proof.
  intros Hchildren Hi.
  set (p' := with_activeTabKey p (key_or_index c i)).
  assert (Hchildren' : children p' = ChildArray (Some <$> tabs)) by done.
  destruct (render_tabs_lookup p' tabs Hchildren' i c Hi)
    as (b & Hb & _ & Hkey & _).
  destruct (render_panels_lookup p' tabs Hchildren' i c Hi)
    as (q & Hq & Hpanel & _).
  exists b, q. split; [done|]. split; [done|].
  destruct (tab_attributes p' b (list_elem_of_lookup_2 _ _ _ Hb))
    as (-> & -> & _).
  destruct (panel_attributes p' q (list_elem_of_lookup_2 _ _ _ Hq))
    as (_ & -> & ->).
  rewrite Hkey, Hpanel. cbn [activeTabKey p' with_activeTabKey].
  by rewrite !bool_decide_true by done.
Qed.

(** X19: when no child is falsy and the parent answers [onSelect] by making
    the reported key the [activeTabKey], the next render shows the tab that
    was clicked, or that an arrow key gave focus to under automatic
    activation, as the selected tab, with tabindex "0" and its panel
    expanded: focus and selection stay on one tab. *)
Theorem select_round_trip (p : props) (tabs : list tab) (index : nat)
    (code : Z) (w : world) :
  children p = ChildArray (Some <$> tabs) ->
  (index < length tabs)%nat ->
  code = 37 \/ code = 39 ->
  keyboardActivation p = KEYBOARD_ACTIVATION.automatic ->
  (exists k b q,
     onClick p index w
     = Normal tt {| activeElement := activeElement w;
                    onSelect_calls := onSelect_calls w ++ [Some k] |} /\
     render_tabs (with_activeTabKey p k) !! index = Some b /\
     render_panels (with_activeTabKey p k) !! index = Some q /\
     tabIndex b = "0" /\ aria_selected b = true /\
     aria_expanded q = true /\ hidden q = false) /\
  (exists j k b q,
     onKeyDown p index {| keyCode := code; target := index |} w
     = Normal tt {| activeElement := Some (TabNode j);
                    onSelect_calls := onSelect_calls w ++ [Some k] |} /\
     render_tabs (with_activeTabKey p k) !! j = Some b /\
     render_panels (with_activeTabKey p k) !! j = Some q /\
     button_index b = j /\
     tabIndex b = "0" /\ aria_selected b = true /\
     aria_expanded q = true /\ hidden q = false).
Proof.
  intros Hchildren Hindex Hcode Hmode. split.
  - destruct (lookup_lt_is_Some_2 tabs index Hindex) as [c Hc].
    destruct (selected_after_select p tabs index c Hchildren Hc)
      as (b & q & Hb & Hq & Hrest).
    exists (key_or_index c index), b, q. split; [|done].
    unfold onClick. by rewrite (tabKeys_lookup p tabs Hchildren index c Hc).
  - pose proof (neighbour_lt (length tabs) index code Hindex) as Hlt.
    destruct (lookup_lt_is_Some_2 tabs _ Hlt) as [c Hc].
    destruct (selected_after_select p tabs _ c Hchildren Hc)
      as (b & q & Hb & Hq & Hrest).
    exists (neighbour (length tabs) index code),
      (key_or_index c (neighbour (length tabs) index code)), b, q.
    split; [|split; [done|split; [done|split; [|done]]]].
    + rewrite (onKeyDown_all_tabs p tabs Hchildren index code w Hindex Hcode).
      rewrite Hmode, bool_decide_true by done.
      by rewrite (tabKeys_lookup p tabs Hchildren _ c Hc).
    + assert (Hchildren' :
        children (with_activeTabKey p
                    (key_or_index c (neighbour (length tabs) index code)))
        = ChildArray (Some <$> tabs)) by done.
      destruct (render_tabs_lookup _ tabs Hchildren' _ c Hc)
        as (b' & Hb' & Hindex' & _).
      congruence.
Qed.

Lemma select_round_trip_witness :
  (exists k b q,
     onClick three_tabs 2 (focused_on 0)
     = Normal tt {| activeElement := activeElement (focused_on 0);
                    onSelect_calls :=
                      onSelect_calls (focused_on 0) ++ [Some k] |} /\
     render_tabs (with_activeTabKey three_tabs k) !! 2%nat = Some b /\
     render_panels (with_activeTabKey three_tabs k) !! 2%nat = Some q /\
     tabIndex b = "0" /\ aria_selected b = true /\
     aria_expanded q = true /\ hidden q = false) /\
  (exists j k b q,
     onKeyDown three_tabs 2 {| keyCode := 39; target := 2 |} (focused_on 0)
     = Normal tt {| activeElement := Some (TabNode j);
                    onSelect_calls :=
                      onSelect_calls (focused_on 0) ++ [Some k] |} /\
     render_tabs (with_activeTabKey three_tabs k) !! j = Some b /\
     render_panels (with_activeTabKey three_tabs k) !! j = Some q /\
     button_index b = j /\
     tabIndex b = "0" /\ aria_selected b = true /\
     aria_expanded q = true /\ hidden q = false).
Proof.
  apply (select_round_trip three_tabs [tab_A; tab_B; tab_C] 2 39
           (focused_on 0)).
  - reflexivity.
  - simpl. lia.
  - right. reflexivity.
  - reflexivity.
Defined.

(** ** Props that are not read *)

(** X20: [disabled] changes nothing: the tabs, the panels, the styles and
    the click and key handlers are the same for [disabled] true and false,
    so a disabled [Tabs] still moves focus and calls [onSelect]. *)
Theorem disabled_is_ignored (p : props) (flag : bool) (t : theme)
    (layout : accent_layout) (index : nat) (ev : event) (w : world) :
  render_tabs (with_disabled p flag) = render_tabs p /\
  render_panels (with_disabled p flag) = render_panels p /\
  childNodes (with_disabled p flag) = childNodes p /\
  onClick (with_disabled p flag) index w = onClick p index w /\
  onKeyDown (with_disabled p flag) index ev w = onKeyDown p index ev w /\
  root_style (with_disabled p flag) t = root_style p t /\
  tab_list_style (with_disabled p flag) t = tab_list_style p t /\
  accent_style (with_disabled p flag) t layout = accent_style p t layout.
Proof. repeat split. Qed.
